(** * SQL sanitizer of the vehicle-insight pipeline

    A shallow embedding of [clean_sql] (and of the thin pipeline functions
    around it) from [ollama_streamlit_app/pipeline.py], with the properties
    the specification states about it.

    A Python [str] is a sequence of Unicode code points, so a string is a
    [list N] here.  The character classes below are the ones CPython uses
    for [str.strip], [str.splitlines] and the [re] classes of the patterns
    in [clean_sql]. *)

From Stdlib Require Import Ascii String.
From Stdlib Require Import List NArith Bool Arith Lia.
Import ListNotations.

Local Open Scope N_scope.

(** ** Strings *)

Definition char := N.
Abbreviation str := (list char).

(** ASCII literals, one code point per character. *)
Definition of_string (s : string) : str :=
  map N_of_ascii (list_ascii_of_string s).

Definition chr_lf : char := 10.
Definition chr_cr : char := 13.
Definition chr_comma : char := 44.
Definition chr_semi : char := 59.
Definition chr_backtick : char := 96.

(** [str.isspace], which is also what [str.strip()] removes and what the
    regex class [\s] matches on a [str] pattern. *)
Definition is_space (c : char) : bool :=
  ((9 <=? c) && (c <=? 13)) || ((28 <=? c) && (c <=? 32))
  || (c =? 133) || (c =? 160) || (c =? 5760)
  || ((8192 <=? c) && (c <=? 8202))
  || (c =? 8232) || (c =? 8233) || (c =? 8239) || (c =? 8287)
  || (c =? 12288).

(** The line boundaries of [str.splitlines]. *)
Definition is_linebreak (c : char) : bool :=
  ((10 <=? c) && (c <=? 13)) || ((28 <=? c) && (c <=? 30))
  || (c =? 133) || (c =? 8232) || (c =? 8233).

(** The regex class [[a-zA-Z0-9_]]. *)
Definition is_word (c : char) : bool :=
  ((97 <=? c) && (c <=? 122)) || ((65 <=? c) && (c <=? 90))
  || ((48 <=? c) && (c <=? 57)) || (c =? 95).

(** [str.lower()] on one code point.  Besides [A-Z], exactly two code
    points lower to something that contains an ASCII letter: U+0130 (to
    [i] followed by U+0307) and U+212A, the Kelvin sign (to [k]).  Every
    other code point lowers to non-ASCII code points or to itself; as the
    result is only compared with ASCII keywords, those are left as they
    are. *)
Definition lower_char (c : char) : str :=
  if (65 <=? c) && (c <=? 90) then [c + 32]
  else if c =? 304 then [105; 775]
  else if c =? 8490 then [107]
  else [c].

Definition lower (s : str) : str := flat_map lower_char s.

(** [s.startswith(p)] *)
Fixpoint startswith (p s : str) : bool :=
  match p, s with
  | [], _ => true
  | _ :: _, [] => false
  | a :: p', c :: s' => (a =? c) && startswith p' s'
  end.

(** [s.startswith((p1, ..., pn))] *)
Definition startswith_any (ps : list str) (s : str) : bool :=
  existsb (fun p => startswith p s) ps.

(** [c in s] for a one-character [c]. *)
Definition contains (c : char) (s : str) : bool := existsb (N.eqb c) s.

(** [s.split(sep)] for a one-character separator: never empty. *)
Fixpoint split (sep : char) (s : str) : list str :=
  match s with
  | [] => [[]]
  | c :: r =>
      if c =? sep then [] :: split sep r
      else match split sep r with
           | l :: ls => (c :: l) :: ls
           | [] => [[c]]
           end
  end.

Fixpoint lstrip (s : str) : str :=
  match s with
  | c :: r => if is_space c then lstrip r else s
  | [] => []
  end.

Definition rstrip (s : str) : str := rev (lstrip (rev s)).

(** [s.strip()] *)
Definition strip (s : str) : str := rstrip (lstrip s).

(** [s.splitlines()]: a line ends at a line boundary, [\r\n] counts as one
    boundary, and a boundary at the very end opens no further line. *)
Fixpoint splitlines (s : str) : list str :=
  match s with
  | [] => []
  | c :: r =>
      if is_linebreak c then
        [] :: match r with
              | d :: r' =>
                  if (c =? chr_cr) && (d =? chr_lf) then splitlines r'
                  else splitlines r
              | [] => []
              end
      else match splitlines r with
           | l :: ls => (c :: l) :: ls
           | [] => [[c]]
           end
  end.

(** [sep.join(ls)] *)
Fixpoint join (sep : str) (ls : list str) : str :=
  match ls with
  | [] => []
  | [l] => l
  | l :: ls' => l ++ sep ++ join sep ls'
  end.

(** ** Regular expressions

    [re.sub(pattern, repl, s)] scans [s] from the left; where the pattern
    matches it emits [repl] and resumes after the match, elsewhere it
    copies one character.  A pattern is given by its matcher at the head of
    a string, which returns the length of the match.  [skip] counts the
    characters of the current match still to be passed over.  No pattern of
    [clean_sql] matches the empty string. *)
Fixpoint re_sub_from (m : str -> option nat) (repl : str) (skip : nat)
    (s : str) : str :=
  match s with
  | [] => []
  | c :: r =>
      match skip with
      | S k => re_sub_from m repl k r
      | O =>
          match m s with
          | Some (S k) => repl ++ re_sub_from m repl k r
          | _ => c :: re_sub_from m repl 0 r
          end
      end
  end.

Definition re_sub (m : str -> option nat) (repl s : str) : str :=
  re_sub_from m repl 0 s.

(** Index of the first occurrence of [p] in [s] ([s.find(p)]). *)
Fixpoint find (p s : str) : option nat :=
  if startswith p s then Some O
  else match s with
       | [] => None
       | _ :: r => option_map S (find p r)
       end.

Definition fence : str := [chr_backtick; chr_backtick; chr_backtick].

(** The pattern [```.*?```] with [re.DOTALL]: an opening fence, then the
    shortest text up to the next fence. *)
Definition fence_match (s : str) : option nat :=
  if startswith fence s then
    match find fence (skipn 3 s) with
    | Some k => Some (3 + k + 3)%nat
    | None => None
    end
  else None.

(** Case-insensitive comparison of a pattern letter with a code point.  For
    the letters of [ORDER BY] (and the space) [re.IGNORECASE] accepts only
    the two ASCII cases. *)
Definition lower_ascii (c : char) : char :=
  if (65 <=? c) && (c <=? 90) then c + 32 else c.

Fixpoint startswith_ci (p s : str) : bool :=
  match p, s with
  | [], _ => true
  | _ :: _, [] => false
  | a :: p', c :: s' => (lower_ascii a =? lower_ascii c) && startswith_ci p' s'
  end.

Fixpoint span_len (f : char -> bool) (s : str) : nat :=
  match s with
  | c :: r => if f c then S (span_len f r) else O
  | [] => O
  end.

Definition ORDER_BY : str := of_string "ORDER BY".

(** The pattern [ORDER BY\s+ORDER BY] with [re.IGNORECASE].  [\s+] takes
    all the white space there is: the next pattern letter is not white
    space, so giving some back never helps. *)
Definition orderby_match (s : str) : option nat :=
  if startswith_ci ORDER_BY s then
    let k := span_len is_space (skipn 8 s) in
    if (0 <? k)%nat && startswith_ci ORDER_BY (skipn (8 + k) s)
    then Some (8 + k + 8)%nat
    else None
  else None.

(** The pattern [^[a-zA-Z0-9_]+(,\s*[a-zA-Z0-9_]+)*\s*$] under
    [bad_line.match]: anchored at both ends, so it accepts a language, the
    one of this automaton.  ([$] also matches before a final newline; the
    trailing [\s*] already takes that newline.) *)
Inductive bad_state : Type :=
| BStart       (* nothing read: an identifier must start *)
| BWord        (* inside an identifier *)
| BComma       (* after a comma and white space: an identifier must start *)
| BTrail.      (* inside the trailing white space *)

Fixpoint bad_line_run (q : bad_state) (s : str) : bool :=
  match s with
  | [] => match q with BWord | BTrail => true | _ => false end
  | c :: r =>
      match q with
      | BStart => is_word c && bad_line_run BWord r
      | BWord =>
          if is_word c then bad_line_run BWord r
          else if c =? chr_comma then bad_line_run BComma r
          else is_space c && bad_line_run BTrail r
      | BComma =>
          if is_word c then bad_line_run BWord r
          else is_space c && bad_line_run BComma r
      | BTrail => is_space c && bad_line_run BTrail r
      end
  end.

Definition bad_line_match (s : str) : bool := bad_line_run BStart s.

(** ** [clean_sql] *)

Definition sql_keywords : list str :=
  map of_string ["select"; "from"; "where"; "group"; "order"; "limit"]%string.

(** One round of the loop over the lines: [good] is the list built so far. *)
Definition filter_step (good : list str) (line : str) : list str :=
  let stripped := strip line in
  if startswith_any sql_keywords (lower stripped) then good ++ [line]
  else if bad_line_match stripped then good
  else good ++ [line].

(** [split] never returns an empty list, so its element [[0]] is there and
    [hd] never falls back on its default; [clean_sql_exn] below keeps the
    index as an operation that can raise. *)
Definition clean_sql (sql : str) : str :=
  let sql := re_sub fence_match [] sql in
  let sql :=
    if contains chr_semi sql then hd [] (split chr_semi sql) ++ [chr_semi]
    else sql in
  let sql := strip sql in
  let good := fold_left filter_step (splitlines sql) [] in
  let sql := join [chr_lf] good in
  let sql := re_sub orderby_match ORDER_BY sql in
  strip sql.

(** ** Vocabulary of the properties *)

Definition all_space (s : str) : Prop := Forall (fun c => is_space c = true) s.

(** Number of occurrences of a character. *)
Definition count (c : char) (s : str) : nat := count_occ N.eq_dec s c.

Definition sum_count (c : char) (ls : list str) : nat :=
  list_sum (map (count c) ls).

(** The decision of the loop body of [clean_sql] on one line. *)
Definition is_sql_line (line : str) : bool :=
  startswith_any sql_keywords (lower (strip line)).

Definition keep_line (line : str) : bool :=
  is_sql_line line || negb (bad_line_match (strip line)).

(** The two substitutions of [clean_sql]. *)
Definition strip_fences (s : str) : str := re_sub fence_match [] s.

Definition collapse_order_by (s : str) : str := re_sub orderby_match ORDER_BY s.

(** A text that [ORDER BY] matches without regard to case. *)
Definition is_orderby (o : str) : Prop :=
  map lower_ascii o = of_string "order by".

Definition orderby_letter (c : char) : bool :=
  contains (lower_ascii c) (of_string "order by").

(** The truncation at the first [;]. *)
Definition truncate (s : str) : str :=
  if contains chr_semi s then hd [] (split chr_semi s) ++ [chr_semi] else s.

(** The characters a line that [bad_line] matches is made of. *)
Definition bad_char (c : char) : bool :=
  is_word c || (c =? chr_comma) || is_space c.

(** Scenario 2 of the specification: a fenced block with a statement and
    a stray list of names. *)
Definition scenario2 : str :=
  of_string "```sql" ++ [chr_lf] ++ of_string "SELECT a FROM cars;" ++ [chr_lf]
  ++ of_string "extra, junk, line" ++ [chr_lf] ++ of_string "```".

(** ** The pipeline around [clean_sql]

    Calls that can raise return a [result]. *)

Inductive exn : Type :=
| IndexError                 (* a list index out of range *)
| RequestError (info : str)  (* the completion service: no answer, no [response] field *)
| DuckDBError (info : str).  (* the dataset store: connection or statement refused *)

Inductive result (A : Type) : Type :=
| Ok (a : A)
| Raise (e : exn).

Arguments Ok {A} a.
Arguments Raise {A} e.

Definition bind {A B} (r : result A) (k : A -> result B) : result B :=
  match r with
  | Ok a => k a
  | Raise e => Raise e
  end.

Notation "x <- r ;; k" := (bind r (fun x => k))
  (at level 61, r at next level, right associativity).

(** [l[i]] *)
Definition getitem {A} (l : list A) (i : nat) : result A :=
  match nth_error l i with
  | Some a => Ok a
  | None => Raise IndexError
  end.

(** [clean_sql] once more, with the one operation of it that can raise, the
    index [[0]] into the result of [split], kept as such. *)
Definition clean_sql_exn (sql : str) : result str :=
  let sql := re_sub fence_match [] sql in
  sql <- (if contains chr_semi sql
          then first <- getitem (split chr_semi sql) 0 ;; Ok (first ++ [chr_semi])
          else Ok sql) ;;
  let sql := strip sql in
  let good := fold_left filter_step (splitlines sql) [] in
  let sql := join [chr_lf] good in
  let sql := re_sub orderby_match ORDER_BY sql in
  Ok (strip sql).

Definition SQL_MODEL : str := of_string "gemma2:latest".
Definition REASONING_MODEL : str := of_string "llama3.1:latest".

(** The JSON body of a request to the completion service; the temperature
    is kept as the text of its literal. *)
Record request : Type := {
  req_model : str;
  req_prompt : str;
  req_stream : bool;
  req_temperature : str;
  req_num_ctx : N
}.

(** [requests.post(url, json=body).json()["response"]]: the service is not
    part of the program. *)
Definition completion_service : Type := request -> result str.

(** The two prompts, line by line as the f-strings have them.  In the
    source [schema_text] is a module variable, filled from the store when
    the module is loaded; here it is an argument.  In the literals [34] is
    the double quote and [8594] the arrow. *)
Definition PLAN_PROMPT (schema_text question : str) : str :=
  [chr_lf] ++ join [chr_lf]
    [ of_string "You must output exactly 4 lines. No explanations.";
      [];
      of_string "COLUMNS_NEEDED: <cols>";
      of_string "FILTERS: <filters or NONE>";
      of_string "AGGREGATION: <aggregation or NONE>";
      of_string "OUTPUT_SHAPE: <short description>";
      [];
      of_string "====================";
      of_string "STRICT FILTER RULES";
      of_string "====================";
      [];
      of_string "ABSOLUTE RULE:";
      of_string "- You may ONLY generate a filter if the literal value appears in the question text.";
      of_string "- NEVER output placeholders like <brand>, <model>, <year>, YYYY, XXXX.";
      of_string "- NEVER invent a brand, model, fuel type, or year.";
      of_string "- NEVER create new column names.";
      of_string "- ONLY use column names that appear in the schema.";
      [];
      of_string "====================";
      of_string "EXTRACT SAFETY RULE";
      of_string "====================";
      of_string "The ONLY allowed use of EXTRACT() is:";
      of_string "    EXTRACT(YEAR FROM pop_date)";
      [];
      of_string "You MUST NOT apply EXTRACT() to ANY other column.";
      [];
      of_string "====================";
      of_string "YEAR FILTER";
      of_string "====================";
      of_string "- Only add a year filter if the question contains a literal 4-digit year.";
      of_string "- If a year appears, output:";
      of_string "      EXTRACT(YEAR FROM pop_date) = <year>";
      of_string "- If no year appears, do NOT reference pop_date at all.";
      [];
      of_string "====================";
      of_string "AGE FILTER";
      of_string "====================";
      of_string "If question says:";
      of_string "- " ++ [34] ++ of_string "older than X years" ++ [34] ++ of_string " / " ++ [34] ++ of_string "X years old" ++ [34] ++ of_string " / " ++ [34] ++ of_string "age > X" ++ [34] ++ of_string ":";
      of_string "      pop_avg_vehicle_age_years > X";
      [];
      of_string "====================";
      of_string "BRAND FILTER";
      of_string "====================";
      of_string "Only if exact brand appears:";
      of_string "      manufacturer = 'Brand'";
      [];
      of_string "====================";
      of_string "MODEL FILTER";
      of_string "====================";
      of_string "Only if exact model appears:";
      of_string "      pop_model_name = 'Model'";
      [];
      of_string "====================";
      of_string "GROUPING RULES";
      of_string "====================";
      of_string "- " ++ [34] ++ of_string "Which city..." ++ [34] ++ of_string " " ++ [8594] ++ of_string " group by city";
      of_string "- " ++ [34] ++ of_string "Which country..." ++ [34] ++ of_string " " ++ [8594] ++ of_string " group by country";
      [];
      of_string "====================";
      of_string "AGGREGATION RULES";
      of_string "====================";
      of_string "Population:";
      of_string "      SUM(pop_vehicle_population)";
      of_string "Retirement rate:";
      of_string "      SUM(pop_vehicle_retirements) / SUM(pop_vehicle_population)";
      [];
      of_string "====================";
      of_string "MANDATORY OUTPUT FORMAT";
      of_string "====================";
      of_string "COLUMNS_NEEDED: <comma-separated columns>";
      of_string "FILTERS: <filters joined with AND, or NONE>";
      of_string "AGGREGATION: <expression or NONE>";
      of_string "OUTPUT_SHAPE: <short description>";
      [];
      of_string "SCHEMA:";
      schema_text;
      [];
      of_string "QUESTION:";
      question ]
  ++ [chr_lf].

Definition SQL_BUILDER_PROMPT (plan : str) : str :=
  [chr_lf] ++ join [chr_lf]
    [ of_string "Convert PLAN into valid DuckDB SQL.";
      [];
      of_string "STRICT RULES:";
      of_string "- USE FILTERS EXACTLY AS WRITTEN.";
      of_string "- DO NOT add, modify, or remove filters.";
      of_string "- SELECT may include ONLY grouping columns + aggregates.";
      of_string "- SQL must SELECT FROM cars.";
      of_string "- No comments or markdown.";
      [];
      of_string "PLAN:";
      plan;
      [];
      of_string "Return only the SQL:" ]
  ++ [chr_lf].

Definition make_sql_plan (service : completion_service)
    (schema_text question : str) : result str :=
  service {| req_model := REASONING_MODEL;
             req_prompt := PLAN_PROMPT schema_text question;
             req_stream := false;
             req_temperature := of_string "0.0";
             req_num_ctx := 4096 |}.

Definition build_sql_from_plan (service : completion_service)
    (plan : str) : result str :=
  sql <- service {| req_model := SQL_MODEL;
                    req_prompt := SQL_BUILDER_PROMPT plan;
                    req_stream := false;
                    req_temperature := of_string "0.0";
                    req_num_ctx := 4096 |} ;;
  Ok (clean_sql sql).

Definition make_sql (service : completion_service)
    (schema_text question : str) : result str :=
  plan <- make_sql_plan service schema_text question ;;
  build_sql_from_plan service plan.

(** The dataset store, as [run_sql] uses it: [duckdb.connect(path)], and
    [conn.execute(sql).fetchall()] on the connection.  The [with] block
    closes the connection on the way out, whatever the outcome. *)
Record duckdb_api (Conn Row : Type) : Type := {
  connect : str -> result Conn;
  execute_fetchall : Conn -> str -> result (list Row)
}.

Arguments connect {Conn Row} _ _.
Arguments execute_fetchall {Conn Row} _ _ _.

Definition run_sql {Conn Row} (duckdb : duckdb_api Conn Row) (sql : str)
    : result (list Row) :=
  conn <- connect duckdb (of_string "cars.duckdb") ;;
  execute_fetchall duckdb conn sql.

(** What [app.py] shows under [Query Results]. *)
Inductive shown (Row : Type) : Type :=
| Warning (message : str)
| Dataframe (rows : list Row).

Arguments Warning {Row} message.
Arguments Dataframe {Row} rows.

Definition show_results {Row} (rows : list Row) : shown Row :=
  if (length rows =? 0)%nat
  then Warning (of_string "No rows returned from database.")
  else Dataframe rows.

(** ** The line filter in the words of the specification *)

Inductive line_class : Type :=
| SqlLine      (* starts with one of the six keywords, in any case *)
| BareList     (* a bare comma-separated list of identifiers *)
| OtherLine.

(** The six keywords, as the specification names them. *)
Definition spec_keywords : list str :=
  [ of_string "select"; of_string "from"; of_string "where";
    of_string "group"; of_string "order"; of_string "limit" ].

Definition spec_sql_line (line : str) : bool :=
  existsb (fun kw => startswith_ci kw (strip line)) spec_keywords.

Definition spec_classify (line : str) : line_class :=
  if spec_sql_line line then SqlLine
  else if bad_line_match (strip line) then BareList
  else OtherLine.

Definition spec_keeps (line : str) : bool :=
  match spec_classify line with
  | BareList => false
  | SqlLine | OtherLine => true
  end.

(** The language of the pattern [[a-zA-Z0-9_]+(,\s*[a-zA-Z0-9_]+)*\s*]. *)
Definition ident (w : str) : Prop :=
  w <> [] /\ Forall (fun c => is_word c = true) w.

Inductive bare_tail : str -> Prop :=
| bare_end w : all_space w -> bare_tail w
| bare_item sp w rest :
    all_space sp -> ident w -> bare_tail rest ->
    bare_tail (chr_comma :: sp ++ w ++ rest).

Definition bare_list (s : str) : Prop :=
  exists w rest, s = w ++ rest /\ ident w /\ bare_tail rest.

(** A keyword of lower-case ASCII letters on which [str.lower] followed by
    [startswith] and a comparison without regard to ASCII case agree: no
    [k], and no [i] at its end. *)
Fixpoint plain_keyword (kw : str) : bool :=
  match kw with
  | [] => true
  | a :: kw' =>
      (97 <=? a) && (a <=? 122) && negb (a =? 107)
      && (negb (a =? 105) || match kw' with [] => false | _ :: _ => true end)
      && plain_keyword kw'
  end.

(** [schema_text], as the module builds it from the rows of the schema
    query: one line [column type] per column. *)
Definition schema_text_of (schema_rows : list (str * str)) : str :=
  join [chr_lf] (map (fun row => fst row ++ [32] ++ snd row) schema_rows).

(** ** Plans

    The source has no parser or validator of plans: a plan is the text the
    completion service returns.  To state the invariants of the
    specification about such a text, its fields are read off the format
    [PLAN_PROMPT] asks for, one line [LABEL: value] per field. *)
Fixpoint drop_prefix (p s : str) : option str :=
  match p, s with
  | [], _ => Some s
  | _ :: _, [] => None
  | a :: p', c :: s' => if a =? c then drop_prefix p' s' else None
  end.

Fixpoint first_field (label : str) (lines : list str) : option str :=
  match lines with
  | [] => None
  | l :: ls =>
      match drop_prefix (label ++ [58]) (strip l) with
      | Some v => Some (strip v)
      | None => first_field label ls
      end
  end.

Definition plan_field (label : string) (plan : str) : option str :=
  first_field (of_string label) (splitlines plan).

Definition well_formed_plan (plan : str) : Prop :=
  plan_field "COLUMNS_NEEDED" plan <> None /\
  plan_field "FILTERS" plan <> None /\
  plan_field "AGGREGATION" plan <> None /\
  plan_field "OUTPUT_SHAPE" plan <> None.

Definition plan_columns_needed (plan : str) : list str :=
  match plan_field "COLUMNS_NEEDED" plan with
  | Some v => map strip (split chr_comma v)
  | None => []
  end.

(** The texts between single quotes. *)
Fixpoint quoted (inside : option str) (s : str) : list str :=
  match s with
  | [] => []
  | c :: r =>
      match inside with
      | None => if c =? 39 then quoted (Some []) r else quoted None r
      | Some cur =>
          if c =? 39 then cur :: quoted None r
          else quoted (Some (cur ++ [c])) r
      end
  end.

Definition plan_filter_literals (plan : str) : list str :=
  match plan_field "FILTERS" plan with
  | Some v => quoted None v
  | None => []
  end.

(** The two invariants of the specification, for the plan [make_sql_plan]
    returns. *)
Definition plan_invariants (service : completion_service)
    (schema_rows : list (str * str)) (question : str) : Prop :=
  forall plan,
    make_sql_plan service (schema_text_of schema_rows) question = Ok plan ->
    well_formed_plan plan ->
    Forall (fun col => In col (map fst schema_rows)) (plan_columns_needed plan)
    /\ Forall (fun lit => find lit question <> None) (plan_filter_literals plan).

(** The request [build_sql_from_plan] sends. *)
Definition sql_request (plan : str) : request :=
  {| req_model := SQL_MODEL;
     req_prompt := SQL_BUILDER_PROMPT plan;
     req_stream := false;
     req_temperature := of_string "0.0";
     req_num_ctx := 4096 |}.

(** A completion service that does not keep to the rules of the prompt:
    a column the schema does not have, a brand the question does not
    name. *)
Definition stray_plan : str :=
  join [chr_lf]
    [ of_string "COLUMNS_NEEDED: city, resale_value";
      of_string "FILTERS: manufacturer = 'Tesla'";
      of_string "AGGREGATION: SUM(pop_vehicle_population)";
      of_string "OUTPUT_SHAPE: one row per city" ].

Definition stray_sql : str :=
  of_string "SELECT city, SUM(pop_vehicle_population) FROM cars WHERE manufacturer = 'Tesla' GROUP BY city;".

Definition stray_service : completion_service :=
  fun req =>
    if startswith REASONING_MODEL (req_model req) then Ok stray_plan
    else Ok stray_sql.

Definition small_schema : list (str * str) :=
  [ (of_string "city", of_string "VARCHAR");
    (of_string "manufacturer", of_string "VARCHAR");
    (of_string "pop_vehicle_population", of_string "BIGINT") ].

Definition city_question : str :=
  of_string "Which city has the most vehicles?".

(** ** Vocabulary of the idempotence proof *)

(** Whether a pattern matches somewhere in a text. *)
Fixpoint occurs (m : str -> option nat) (s : str) : bool :=
  match s with
  | [] => false
  | _ :: r =>
      match m s with
      | Some (S _) => true
      | _ => occurs m r
      end
  end.

(** Number of fences met on a scan from the left that restarts after each
    fence; [k] is the number of backticks just passed (at most two count).
    A text with at most one such fence has no fenced block. *)
Fixpoint fence_count (k : nat) (s : str) : nat :=
  match s with
  | [] => O
  | c :: r =>
      if c =? chr_backtick then
        match k with
        | O => fence_count 1 r
        | S O => fence_count 2 r
        | S (S _) => S (fence_count 0 r)
        end
      else fence_count 0 r
  end.

(** Line boundaries are newlines only. *)
Definition nl_only (s : str) : Prop :=
  Forall (fun c => is_linebreak c = true -> c = chr_lf) s.

(** Every line between newlines would be kept by the line filter. *)
Definition all_kept (s : str) : Prop :=
  Forall (fun l => keep_line l = true) (split chr_lf s).

(** Number of backticks a text starts with. *)
Definition lead (s : str) : nat := span_len (fun c => c =? chr_backtick) s.

Definition sum_fences (ls : list str) : nat :=
  list_sum (map (fence_count 0) ls).

(** A store in which every statement runs and finds no row. *)
Definition empty_store : duckdb_api unit (list N) :=
  {| connect := fun _ => Ok tt;
     execute_fetchall := fun _ _ => Ok [] |}.

(** ** The insight and the page of [app.py] *)

(** [rows_text] is [rows] as the f-string formats it, the [str] of a list
    of tuples. *)
Definition INSIGHT_PROMPT (question rows_text : str) : str :=
  [chr_lf] ++ join [chr_lf]
    [ of_string "You are a senior automotive market strategist.";
      [];
      of_string "Your responsibilities:";
      of_string "- Answer the question directly.";
      of_string "- Use ONLY `rows` as numeric evidence.";
      of_string "- Identify the max/min strictly by numeric comparison.";
      of_string "- Never mention SQL or tuples.";
      [];
      of_string "Provide:";
      of_string "1. Direct answer.";
      of_string "2. Numeric statement.";
      of_string "3. 2 to 3 high-level business insights for:";
      of_string "   - OEMs";
      of_string "   - service workshops";
      of_string "   - dealerships";
      of_string "   - parts suppliers";
      [];
      of_string "User question:";
      question;
      [];
      of_string "Query results:";
      rows_text;
      [];
      of_string "Provide a clear executive explanation:" ]
  ++ [chr_lf].

Definition ask_reasoning_llm (service : completion_service) (prompt : str)
    : result str :=
  service {| req_model := REASONING_MODEL;
             req_prompt := prompt;
             req_stream := false;
             req_temperature := of_string "0.3";
             req_num_ctx := 4096 |}.

Definition make_insight {Row} (service : completion_service)
    (str_of_rows : list Row -> str) (question : str) (rows : list Row)
    : result str :=
  ask_reasoning_llm service (INSIGHT_PROMPT question (str_of_rows rows)).

(** What [app.py] puts on the page, in order.  The spinners, which are
    gone when their block ends, are left out, and a caption stands for its
    label: the elapsed time after it depends on the clock. *)
Inductive widget (Row : Type) : Type :=
| Title (text : str)
| Write (text : str)
| Markdown (text : str)
| TextInput (label placeholder : str)
| Button (label : str)
| Subheader (text : str)
| Code (body language : str)
| Results (r : shown Row)
| Caption (label : str).

Arguments Title {Row} text.
Arguments Write {Row} text.
Arguments Markdown {Row} text.
Arguments TextInput {Row} label placeholder.
Arguments Button {Row} label.
Arguments Subheader {Row} text.
Arguments Code {Row} body language.
Arguments Results {Row} r.
Arguments Caption {Row} label.

(** A script run: the widgets shown so far, and how the run went on.  An
    exception ends the run; what was shown before it stays. *)
Definition page (Row A : Type) : Type := (list (widget Row) * result A)%type.

Definition page_bind {Row A B} (p : page Row A) (k : A -> page Row B)
    : page Row B :=
  match p with
  | (shown1, Ok a) => let (shown2, r) := k a in (shown1 ++ shown2, r)
  | (shown1, Raise e) => (shown1, Raise e)
  end.

Definition show {Row} (w : widget Row) : page Row unit := ([w], Ok tt).

Definition call {Row A} (r : result A) : page Row A := ([], r).

Notation "x <~ p ;; k" := (page_bind p (fun x => k))
  (at level 61, p at next level, right associativity).
Notation "p ;;; k" := (page_bind p (fun _ => k))
  (at level 61, right associativity).

(** The script [app.py] from its first widget on, for a given text in the
    input field and state of the button, in a run that finds the module
    [pipeline] loaded.  The first run of a session imports [pipeline], and
    the body of that module opens the store, fills the table [cars], reads
    the schema and the samples and closes the store again, before any
    widget; that body is not part of this definition, and [schema_text],
    which it leaves behind, is an argument.  A run with the button pressed
    comes after the first run, so it is a run of this kind. *)
Definition app_script {Conn Row} (service : completion_service)
    (duckdb : duckdb_api Conn Row) (schema_text : str)
    (str_of_rows : list Row -> str)
    (question : str) (run_button : bool) : page Row unit :=
  show (Title (of_string "Vehicle Insight Assistant")) ;;;
  show (Write (of_string "Ask any question about vehicle populations, retirement rates, models, manufacturers, cities, etc!")) ;;;
  show (Markdown (of_string "---")) ;;;
  show (TextInput (of_string "Enter your question:")
          (of_string "e.g. Which city has the highest retirement rate among vehicles older than 10 years?")) ;;;
  show (Button (of_string "Run Query")) ;;;
  if run_button && negb (length (strip question) =? 0)%nat then
    sql <~ call (make_sql service schema_text question) ;;
    show (Subheader (of_string "Generated SQL")) ;;;
    show (Code sql (of_string "sql")) ;;;
    rows <~ call (run_sql duckdb sql) ;;
    show (Subheader (of_string "Query Results")) ;;;
    show (Results (show_results rows)) ;;;
    insight <~ call (make_insight service str_of_rows question rows) ;;
    show (Subheader (of_string "Insight")) ;;;
    show (Write insight) ;;;
    show (Markdown (of_string "---")) ;;;
    show (Caption (of_string "SQL Generation Time")) ;;;
    show (Caption (of_string "SQL Execution Time")) ;;;
    show (Caption (of_string "Insight Generation Time"))
  else (([], Ok tt) : page Row unit).

(** The widgets of [app.py] that are on the page in every run. *)
Definition app_header {Row} : list (widget Row) :=
  [ Title (of_string "Vehicle Insight Assistant");
    Write (of_string "Ask any question about vehicle populations, retirement rates, models, manufacturers, cities, etc!");
    Markdown (of_string "---");
    TextInput (of_string "Enter your question:")
      (of_string "e.g. Which city has the highest retirement rate among vehicles older than 10 years?");
    Button (of_string "Run Query") ].

(** An output of [clean_sql]. *)
Definition cleaned (sql : str) : Prop := exists raw, sql = clean_sql raw.

(** A column name and its type have no line boundary in them, and the name
    no space. *)
Definition plain_row (row : str * str) : Prop :=
  Forall (fun c => is_linebreak c = false /\ c <> 32) (fst row) /\
  Forall (fun c => is_linebreak c = false) (snd row).

(** A completion service that cannot be reached, a store that cannot be
    opened, and a store that refuses every statement. *)
Definition failing_service : completion_service :=
  fun _ => Raise (RequestError (of_string "Connection refused")).

Definition unreachable_store : duckdb_api unit (list N) :=
  {| connect := fun _ => Raise (DuckDBError (of_string "IO Error"));
     execute_fetchall := fun _ _ => Ok [] |}.

Definition rejecting_store : duckdb_api unit (list N) :=
  {| connect := fun _ => Ok tt;
     execute_fetchall := fun _ _ => Raise (DuckDBError (of_string "Parser Error")) |}.

(** The part of the page above the results. *)
Definition sql_widgets {Row} (sql : str) : list (widget Row) :=
  [ Subheader (of_string "Generated SQL"); Code sql (of_string "sql") ].

Definition result_widgets {Row} (rows : list Row) : list (widget Row) :=
  [ Subheader (of_string "Query Results"); Results (show_results rows) ].

Definition insight_widgets {Row} (insight : str) : list (widget Row) :=
  [ Subheader (of_string "Insight"); Write insight; Markdown (of_string "---");
    Caption (of_string "SQL Generation Time");
    Caption (of_string "SQL Execution Time");
    Caption (of_string "Insight Generation Time") ].

(** A store that refuses whatever holds more than one [;]. *)
Definition one_statement_store : duckdb_api unit (list N) :=
  {| connect := fun _ => Ok tt;
     execute_fetchall := fun _ s =>
       if (count chr_semi s <=? 1)%nat then Ok []
       else Raise (DuckDBError (of_string "Parser Error")) |}.

Local Close Scope N_scope.

(** * Properties *)

(** ** Characters *)

#[local] Arguments N.eqb : simpl never.
#[local] Arguments N.leb : simpl never.

Create Rewrite HintDb char_bools.
#[local] Hint Rewrite orb_true_iff andb_true_iff orb_false_iff andb_false_iff
  N.eqb_eq N.eqb_neq N.leb_le N.leb_gt negb_true_iff negb_false_iff : char_bools.

Ltac char_bools :=
  unfold chr_lf, chr_cr, chr_comma, chr_semi, chr_backtick,
    is_space, is_linebreak, is_word, lower_ascii in *;
  autorewrite with char_bools in *; lia.

Lemma linebreak_is_space c : is_linebreak c = true -> is_space c = true.
Proof. intros H. char_bools. Qed.

Lemma word_not_space c : is_word c = true -> is_space c = false.
Proof. intros H. char_bools. Qed.

Lemma semi_not_space : is_space chr_semi = false.
Proof. reflexivity. Qed.

(** ** [re.sub] *)

Lemma re_sub_from_skip m repl k s :
  re_sub_from m repl k s = re_sub_from m repl 0 (skipn k s).
Proof.
  revert k. induction s as [|c r IH]; intros [|k]; try reflexivity.
  simpl. apply IH.
Qed.

Lemma re_sub_nil m repl : re_sub m repl [] = [].
Proof. reflexivity. Qed.

Lemma re_sub_cons m repl c r :
  re_sub m repl (c :: r) =
  match m (c :: r) with
  | Some (S k) => repl ++ re_sub m repl (skipn k r)
  | _ => c :: re_sub m repl r
  end.
Proof.
  unfold re_sub. simpl. destruct (m (c :: r)) as [[|k]|]; try reflexivity.
  now rewrite re_sub_from_skip.
Qed.

(** A proof principle for [re_sub]: follow the scan. *)
Lemma re_sub_ind m repl (P : str -> str -> Prop) :
  P [] [] ->
  (forall c r, (forall k, m (c :: r) <> Some (S k)) ->
     P r (re_sub m repl r) -> P (c :: r) (c :: re_sub m repl r)) ->
  (forall c r k, m (c :: r) = Some (S k) ->
     P (skipn k r) (re_sub m repl (skipn k r)) ->
     P (c :: r) (repl ++ re_sub m repl (skipn k r))) ->
  forall s, P s (re_sub m repl s).
Proof.
  intros Hnil Hcopy Hmatch s.
  remember (length s) as n eqn:Hn.
  revert s Hn. induction n as [n IH] using lt_wf_ind. intros s Hn.
  destruct s as [|c r]; [exact Hnil|].
  rewrite re_sub_cons.
  destruct (m (c :: r)) as [[|k]|] eqn:Hm.
  - apply Hcopy; [intros k; congruence|].
    apply (IH (length r)); simpl in Hn; [lia | reflexivity].
  - apply Hmatch; [exact Hm|].
    apply (IH (length (skipn k r))); [|reflexivity].
    rewrite length_skipn. simpl in Hn. lia.
  - apply Hcopy; [intros k; congruence|].
    apply (IH (length r)); simpl in Hn; [lia | reflexivity].
Qed.

(** ** [strip] *)

Lemma lstrip_decomp s : exists w, s = w ++ lstrip s /\ all_space w.
Proof.
  induction s as [|c r [w [E Hw]]]; [exists []; split; [reflexivity|constructor]|].
  simpl. destruct (is_space c) eqn:Hc.
  - exists (c :: w). split; [simpl; congruence|constructor; assumption].
  - exists []. split; [reflexivity|constructor].
Qed.

Lemma lstrip_all_space w s : all_space w -> lstrip (w ++ s) = lstrip s.
Proof.
  induction 1 as [|c w Hc _ IH]; [reflexivity|]. simpl. now rewrite Hc.
Qed.

Lemma lstrip_head s :
  match lstrip s with [] => True | c :: _ => is_space c = false end.
Proof.
  induction s as [|c r IH]; simpl; [exact I|].
  destruct (is_space c) eqn:Hc; [exact IH|exact Hc].
Qed.

Lemma lstrip_id s :
  match s with [] => True | c :: _ => is_space c = false end -> lstrip s = s.
Proof. destruct s as [|c r]; simpl; [reflexivity|]. now intros ->. Qed.

Lemma lstrip_idem s : lstrip (lstrip s) = lstrip s.
Proof. apply lstrip_id, lstrip_head. Qed.

Lemma lstrip_app_nonspace p c q :
  is_space c = false -> lstrip (p ++ c :: q) = lstrip p ++ c :: q.
Proof.
  intros Hc. induction p as [|d p IH]; simpl; [now rewrite Hc|].
  destruct (is_space d); [exact IH|reflexivity].
Qed.

Lemma all_space_rev w : all_space w -> all_space (rev w).
Proof. apply Forall_rev. Qed.

Lemma all_space_app w1 w2 : all_space w1 -> all_space w2 -> all_space (w1 ++ w2).
Proof. intros H1 H2. apply Forall_app. now split. Qed.

Lemma lstrip_nil_all_space s : lstrip s = [] -> all_space s.
Proof.
  intros H. destruct (lstrip_decomp s) as [w [E Hw]].
  rewrite H, app_nil_r in E. now subst.
Qed.

Lemma all_space_lstrip_nil s : all_space s -> lstrip s = [].
Proof.
  intros H. rewrite <- (app_nil_r s). now rewrite lstrip_all_space.
Qed.

Lemma rstrip_decomp s : exists w, s = rstrip s ++ w /\ all_space w.
Proof.
  unfold rstrip. destruct (lstrip_decomp (rev s)) as [w [E Hw]].
  exists (rev w). split; [|now apply all_space_rev].
  rewrite <- rev_app_distr, <- E. symmetry. apply rev_involutive.
Qed.

Lemma rstrip_all_space s w : all_space w -> rstrip (s ++ w) = rstrip s.
Proof.
  intros Hw. unfold rstrip. rewrite rev_app_distr.
  rewrite lstrip_all_space; [reflexivity|now apply all_space_rev].
Qed.

Lemma rstrip_snoc p c : is_space c = false -> rstrip (p ++ [c]) = p ++ [c].
Proof.
  intros Hc. unfold rstrip. rewrite rev_app_distr. simpl. rewrite Hc.
  simpl. now rewrite rev_involutive.
Qed.

Lemma rstrip_idem s : rstrip (rstrip s) = rstrip s.
Proof. unfold rstrip. now rewrite rev_involutive, lstrip_idem. Qed.

Lemma rstrip_nil : rstrip [] = [].
Proof. reflexivity. Qed.

Lemma rstrip_cons_nonspace c s :
  is_space c = false -> exists t, rstrip (c :: s) = c :: t.
Proof.
  intros Hc. unfold rstrip. simpl.
  destruct (lstrip_decomp (rev s ++ [c])) as [w [E Hw]].
  destruct (lstrip (rev s ++ [c])) as [|d t] eqn:El.
  - exfalso. apply lstrip_nil_all_space in El.
    apply Forall_app in El. destruct El as [_ El]. inversion El. congruence.
  - assert (E' : c :: s = rev (d :: t) ++ rev w).
    { rewrite <- rev_app_distr, <- E, rev_app_distr, rev_involutive. reflexivity. }
    destruct (rev (d :: t)) as [|e u] eqn:Er.
    + apply (f_equal (@length _)) in Er. rewrite length_rev in Er. discriminate.
    + simpl in E'. injection E' as -> _. now exists u.
Qed.

Lemma strip_decomp s :
  exists w1 w2, s = w1 ++ strip s ++ w2 /\ all_space w1 /\ all_space w2.
Proof.
  destruct (lstrip_decomp s) as [w1 [E1 H1]].
  destruct (rstrip_decomp (lstrip s)) as [w2 [E2 H2]].
  exists w1, w2. unfold strip. now rewrite <- E2.
Qed.

Lemma strip_nil : strip [] = [].
Proof. reflexivity. Qed.

Lemma strip_head s :
  match strip s with [] => True | c :: _ => is_space c = false end.
Proof.
  unfold strip. pose proof (lstrip_head s) as H.
  destruct (lstrip s) as [|c t]; [exact I|].
  destruct (rstrip_cons_nonspace c t H) as [u ->]. exact H.
Qed.

Lemma strip_idem s : strip (strip s) = strip s.
Proof.
  unfold strip at 1. rewrite (lstrip_id (strip s)) by apply strip_head.
  unfold strip. apply rstrip_idem.
Qed.

Lemma strip_snoc p c : is_space c = false -> strip (p ++ [c]) = lstrip p ++ [c].
Proof.
  intros Hc. unfold strip. rewrite lstrip_app_nonspace by assumption.
  now apply rstrip_snoc.
Qed.

Lemma strip_pad w1 s w2 :
  all_space w1 -> all_space w2 -> strip (w1 ++ s ++ w2) = strip s.
Proof.
  intros H1 H2. unfold strip. rewrite lstrip_all_space by assumption.
  destruct (lstrip s) as [|c t] eqn:E.
  - rewrite all_space_lstrip_nil; [reflexivity|].
    apply all_space_app; [now apply lstrip_nil_all_space|assumption].
  - destruct (lstrip_decomp s) as [w [Es Hw]]. rewrite E in Es.
    rewrite Es at 1. rewrite <- app_assoc, lstrip_all_space by assumption.
    pose proof (lstrip_head s) as Hc. rewrite E in Hc.
    change ((c :: t) ++ w2) with ([] ++ c :: t ++ w2).
    rewrite lstrip_app_nonspace by assumption. simpl.
    change (c :: t ++ w2) with ((c :: t) ++ w2).
    now apply rstrip_all_space.
Qed.

(** ** Counting characters *)

#[local] Arguments count : simpl never.

Lemma count_app c a b : count c (a ++ b) = count c a + count c b.
Proof. apply count_occ_app. Qed.

Lemma count_nil c : count c [] = 0.
Proof. reflexivity. Qed.

Lemma count_cons c d s :
  count c (d :: s) = (if N.eqb c d then 1 else 0) + count c s.
Proof.
  unfold count. simpl. destruct (N.eq_dec d c) as [->|Hn].
  - now rewrite N.eqb_refl.
  - destruct (N.eqb_spec c d); [congruence|reflexivity].
Qed.

Lemma contains_count c s : contains c s = false <-> count c s = 0.
Proof.
  induction s as [|d s IH]; [simpl; tauto|].
  rewrite count_cons. unfold contains in *. simpl.
  destruct (N.eqb c d); simpl; [split; [discriminate|lia]|exact IH].
Qed.

Lemma contains_true_count c s : contains c s = true <-> 0 < count c s.
Proof.
  destruct (contains c s) eqn:E.
  - split; [intros _|reflexivity].
    destruct (count c s) eqn:Ec; [|lia].
    apply contains_count in Ec. congruence.
  - apply contains_count in E. rewrite E. split; [discriminate|lia].
Qed.

Lemma contains_app c a b : contains c (a ++ b) = contains c a || contains c b.
Proof. apply existsb_app. Qed.

Lemma count_all_space c w : is_space c = false -> all_space w -> count c w = 0.
Proof.
  intros Hc. induction 1 as [|d w Hd _ IH]; [reflexivity|].
  rewrite count_cons, IH. destruct (N.eqb_spec c d); [congruence|reflexivity].
Qed.

Lemma sum_count_app c l1 l2 :
  sum_count c (l1 ++ l2) = sum_count c l1 + sum_count c l2.
Proof. unfold sum_count. now rewrite map_app, list_sum_app. Qed.

Lemma sum_count_filter c (p : str -> bool) ls :
  sum_count c (filter p ls) <= sum_count c ls.
Proof.
  induction ls as [|l ls IH]; [reflexivity|].
  simpl. destruct (p l); unfold sum_count in *; simpl; lia.
Qed.

(** ** [split] and [join] *)

Lemma split_cons sep s : exists l ls, split sep s = l :: ls.
Proof.
  induction s as [|c r [l [ls E]]]; simpl; [now eauto|].
  destruct (N.eqb c sep); [now eauto|]. rewrite E. now eauto.
Qed.

Lemma split_cons_sep sep r : split sep (sep :: r) = [] :: split sep r.
Proof. simpl. now rewrite N.eqb_refl. Qed.

Lemma split_cons_other sep c r :
  c <> sep ->
  split sep (c :: r) = (c :: hd [] (split sep r)) :: tl (split sep r).
Proof.
  intros Hc. simpl. destruct (N.eqb_spec c sep); [congruence|].
  destruct (split_cons sep r) as [l [ls ->]]. reflexivity.
Qed.

Lemma split_head_decomp sep s :
  contains sep s = true ->
  exists rest, s = hd [] (split sep s) ++ sep :: rest.
Proof.
  induction s as [|c r IH]; [discriminate|].
  unfold contains in *. simpl. rewrite N.eqb_sym.
  destruct (N.eqb_spec c sep) as [->|Hn]; simpl.
  - intros _. now exists r.
  - intros H. destruct (IH H) as [rest E].
    destruct (split_cons sep r) as [l [ls El]]. rewrite El in *. simpl in *.
    exists rest. congruence.
Qed.

Lemma split_head_clean sep s : count sep (hd [] (split sep s)) = 0.
Proof.
  induction s as [|c r IH]; [reflexivity|]. simpl.
  destruct (N.eqb_spec c sep) as [->|Hn]; [reflexivity|].
  destruct (split_cons sep r) as [l [ls El]]. rewrite El in *. simpl in *.
  rewrite count_cons, IH. destruct (N.eqb_spec sep c); [congruence|reflexivity].
Qed.

Lemma join_cons sep l l' ls :
  join sep (l :: l' :: ls) = l ++ sep ++ join sep (l' :: ls).
Proof. reflexivity. Qed.

Lemma join_split sep s : join [sep] (split sep s) = s.
Proof.
  induction s as [|c r IH]; [reflexivity|].
  destruct (N.eq_dec c sep) as [->|Hn].
  - rewrite split_cons_sep. destruct (split_cons sep r) as [l [ls El]].
    rewrite El in *. rewrite join_cons, IH. reflexivity.
  - rewrite split_cons_other by assumption.
    destruct (split_cons sep r) as [l [ls El]]. rewrite El in *. simpl hd. simpl tl.
    destruct ls as [|l' ls]; simpl in *; congruence.
Qed.

Lemma join_cons_ne sep l ls :
  ls <> [] -> join sep (l :: ls) = l ++ sep ++ join sep ls.
Proof. destruct ls; [congruence|reflexivity]. Qed.

Lemma join_snoc sep ls l t :
  join sep (ls ++ [l ++ t]) = join sep (ls ++ [l]) ++ t.
Proof.
  induction ls as [|a ls IH]; [reflexivity|].
  rewrite <- !app_comm_cons.
  rewrite !join_cons_ne by (intros E; apply app_eq_nil in E; destruct E; discriminate).
  rewrite IH. now rewrite <- !app_assoc.
Qed.

Lemma count_join c sep ls :
  count c sep = 0 -> count c (join sep ls) = sum_count c ls.
Proof.
  intros Hs. induction ls as [|l ls IH]; [reflexivity|].
  destruct ls as [|l' ls].
  - unfold sum_count. simpl. lia.
  - rewrite join_cons, !count_app, IH, Hs. unfold sum_count. simpl. lia.
Qed.

(** Length of a joined text, counted with one separator per line. *)
Lemma length_join_sum c ls :
  length (join [c] ls) = list_sum (map (fun l => S (length l)) ls) - 1.
Proof.
  induction ls as [|l ls IH]; [reflexivity|].
  destruct ls as [|l' ls].
  - simpl. lia.
  - rewrite join_cons, !length_app, IH. simpl. lia.
Qed.

Lemma length_sum_filter (p : str -> bool) ls :
  list_sum (map (fun l => S (length l)) (filter p ls))
  <= list_sum (map (fun l => S (length l)) ls).
Proof.
  induction ls as [|l ls IH]; [reflexivity|].
  simpl. destruct (p l); simpl; lia.
Qed.

(** ** [splitlines] *)

Lemma splitlines_char c r :
  is_linebreak c = false ->
  splitlines (c :: r) =
  match splitlines r with l :: ls => (c :: l) :: ls | [] => [[c]] end.
Proof. intros H. simpl. now rewrite H. Qed.

Lemma splitlines_crlf r : splitlines (chr_cr :: chr_lf :: r) = [] :: splitlines r.
Proof. reflexivity. Qed.

Lemma splitlines_break c r :
  is_linebreak c = true ->
  (c = chr_cr -> forall r', r <> chr_lf :: r') ->
  splitlines (c :: r) = [] :: splitlines r.
Proof.
  intros H Hn. simpl. rewrite H. destruct r as [|d r']; [reflexivity|].
  destruct (N.eqb_spec c chr_cr) as [Hc|Hc]; [|reflexivity].
  destruct (N.eqb_spec d chr_lf) as [Hd|Hd]; [|reflexivity].
  subst. exfalso. now apply (Hn eq_refl r').
Qed.

(** A proof principle for [splitlines]: its three ways to move on. *)
Lemma splitlines_ind (P : str -> list str -> Prop) :
  P [] [] ->
  (forall c r, is_linebreak c = false -> P r (splitlines r) ->
     P (c :: r)
       match splitlines r with l :: ls => (c :: l) :: ls | [] => [[c]] end) ->
  (forall c r, is_linebreak c = true -> P r (splitlines r) ->
     P (c :: r) ([] :: splitlines r)) ->
  (forall r, P r (splitlines r) ->
     P (chr_cr :: chr_lf :: r) ([] :: splitlines r)) ->
  forall s, P s (splitlines s).
Proof.
  intros Hnil Hchar Hbreak Hcrlf s.
  remember (length s) as n eqn:Hn.
  revert s Hn. induction n as [n IH] using lt_wf_ind. intros s Hn.
  destruct s as [|c r]; [exact Hnil|]. simpl in Hn.
  assert (IHr : P r (splitlines r)) by (apply (IH (length r)); [lia|reflexivity]).
  destruct (is_linebreak c) eqn:Hc.
  - destruct r as [|d r'].
    + rewrite splitlines_break; [now apply Hbreak|assumption|discriminate].
    + destruct (N.eq_dec c chr_cr) as [->|Hcr];
        [destruct (N.eq_dec d chr_lf) as [->|Hlf]|].
      * rewrite splitlines_crlf. apply Hcrlf.
        apply (IH (length r')); [simpl in Hn; lia|reflexivity].
      * rewrite splitlines_break; [now apply Hbreak|assumption|].
        intros _ r'' E. congruence.
      * rewrite splitlines_break; [now apply Hbreak|assumption|].
        intros E. congruence.
  - rewrite splitlines_char by assumption. now apply Hchar.
Qed.

Lemma sum_count_splitlines c s :
  is_linebreak c = false -> sum_count c (splitlines s) = count c s.
Proof.
  intros Hc. revert s.
  apply (splitlines_ind (fun s ls => sum_count c ls = count c s)).
  - reflexivity.
  - intros d r Hd IH. rewrite count_cons.
    destruct (splitlines r) as [|l ls]; unfold sum_count in *; simpl in *;
      rewrite ?count_cons, ?count_nil; lia.
  - intros d r Hd IH. rewrite count_cons. unfold sum_count in *. simpl.
    destruct (N.eqb_spec c d); [congruence|]. simpl. lia.
  - intros r IH. rewrite !count_cons. unfold sum_count in *. simpl.
    destruct (N.eqb_spec c chr_cr); [subst; discriminate|].
    destruct (N.eqb_spec c chr_lf); [subst; discriminate|]. simpl. lia.
Qed.

Lemma length_sum_splitlines s :
  list_sum (map (fun l => S (length l)) (splitlines s)) <= S (length s).
Proof.
  revert s.
  apply (splitlines_ind
           (fun s ls => list_sum (map (fun l => S (length l)) ls) <= S (length s))).
  - simpl. lia.
  - intros d r Hd IH. destruct (splitlines r) as [|l ls]; simpl in *; lia.
  - intros d r Hd IH. simpl. lia.
  - intros r IH. simpl. lia.
Qed.

(** The last line of a text that ends in a character other than a line
    boundary ends in that character. *)
Lemma splitlines_snoc c s :
  is_linebreak c = false ->
  exists init l, splitlines (s ++ [c]) = init ++ [l ++ [c]].
Proof.
  intros Hc.
  remember (length s) as n eqn:Hn.
  revert s Hn. induction n as [n IH] using lt_wf_ind. intros s Hn.
  destruct s as [|d r].
  - exists [], []. simpl. now rewrite Hc.
  - simpl in Hn. simpl app.
    destruct (is_linebreak d) eqn:Hd.
    + destruct r as [|e r'].
      * exists [[]], []. simpl. rewrite Hd, Hc.
        destruct (N.eqb_spec d chr_cr); destruct (N.eqb_spec c chr_lf);
          subst; try discriminate; reflexivity.
      * destruct (N.eq_dec d chr_cr) as [->|Hcr];
          [destruct (N.eq_dec e chr_lf) as [->|Hlf]|].
        -- simpl app. rewrite splitlines_crlf.
           destruct (IH (length r')) with (s := r') as [init [l E]];
             [simpl in Hn; lia|reflexivity|].
           exists ([] :: init), l. now rewrite E.
        -- rewrite splitlines_break;
             [|assumption|intros _ r'' E; simpl in E; congruence].
           destruct (IH (length (e :: r'))) with (s := e :: r') as [init [l E]];
             [lia|reflexivity|].
           exists ([] :: init), l. now rewrite E.
        -- rewrite splitlines_break; [|assumption|intros E; congruence].
           destruct (IH (length (e :: r'))) with (s := e :: r') as [init [l E]];
             [lia|reflexivity|].
           exists ([] :: init), l. now rewrite E.
    + rewrite splitlines_char by assumption.
      destruct (IH (length r)) with (s := r) as [init [l E]]; [lia|reflexivity|].
      rewrite E. destruct init as [|a init]; simpl.
      * now exists [], (d :: l).
      * now exists ((d :: a) :: init), l.
Qed.

(** ** The line filter *)

Lemma filter_step_keep good line :
  filter_step good line = if keep_line line then good ++ [line] else good.
Proof.
  unfold filter_step, keep_line, is_sql_line.
  destruct (startswith_any sql_keywords (lower (strip line))); [reflexivity|].
  now destruct (bad_line_match (strip line)).
Qed.

Lemma fold_filter_step ls good :
  fold_left filter_step ls good = good ++ filter keep_line ls.
Proof.
  revert good. induction ls as [|l ls IH]; intros good; simpl.
  - now rewrite app_nil_r.
  - rewrite IH, filter_step_keep. destruct (keep_line l); [|reflexivity].
    now rewrite <- app_assoc.
Qed.

(** ** The matchers *)

Lemma skipn_length_app {A} (a b : list A) : skipn (length a) (a ++ b) = b.
Proof. induction a as [|x a IH]; [reflexivity|exact IH]. Qed.

Lemma startswith_inv p s :
  startswith p s = true -> exists rest, s = p ++ rest.
Proof.
  revert s. induction p as [|a p IH]; intros s H; [now exists s|].
  destruct s as [|c s]; [discriminate|]. simpl in H.
  apply andb_true_iff in H. destruct H as [Ha Hp].
  apply N.eqb_eq in Ha. subst. destruct (IH s Hp) as [rest ->]. now exists rest.
Qed.

Lemma startswith_app p rest : startswith p (p ++ rest) = true.
Proof. induction p as [|a p IH]; [reflexivity|]. simpl. now rewrite N.eqb_refl. Qed.

Lemma find_cons p c s :
  find p (c :: s) =
  if startswith p (c :: s) then Some 0 else option_map S (find p s).
Proof. reflexivity. Qed.

Lemma find_inv p s k :
  find p s = Some k -> exists a rest, s = a ++ p ++ rest /\ length a = k.
Proof.
  revert k. induction s as [|c s IH]; intros k H.
  - simpl in H. destruct (startswith p []) eqn:E; [|discriminate].
    injection H as <-. destruct (startswith_inv _ _ E) as [rest Er].
    exists [], rest. now split.
  - simpl in H. destruct (startswith p (c :: s)) eqn:E.
    + injection H as <-. destruct (startswith_inv _ _ E) as [rest Er].
      exists [], rest. now split.
    + destruct (find p s) as [j|] eqn:Ef; [|discriminate].
      injection H as <-. destruct (IH j eq_refl) as [a [rest [-> Ha]]].
      exists (c :: a), rest. split; [reflexivity|simpl; congruence].
Qed.

Lemma fence_match_inv s n :
  fence_match s = Some n ->
  exists b rest, s = fence ++ b ++ fence ++ rest /\ n = length (fence ++ b ++ fence).
Proof.
  unfold fence_match. destruct (startswith fence s) eqn:E; [|discriminate].
  destruct (startswith_inv _ _ E) as [t ->].
  change (skipn 3 (fence ++ t)) with t.
  destruct (find fence t) as [k|] eqn:Ef; [|discriminate].
  intros H. injection H as <-.
  destruct (find_inv _ _ _ Ef) as [b [rest [-> Hb]]].
  exists b, rest. split; [reflexivity|].
  rewrite !length_app. simpl. lia.
Qed.

Lemma startswith_ci_inv p s :
  startswith_ci p s = true ->
  exists o rest, s = o ++ rest /\ map lower_ascii o = map lower_ascii p.
Proof.
  revert s. induction p as [|a p IH]; intros s H; [now exists [], s|].
  destruct s as [|c s]; [discriminate|]. simpl in H.
  apply andb_true_iff in H. destruct H as [Ha Hp].
  apply N.eqb_eq in Ha. destruct (IH s Hp) as [o [rest [-> Ho]]].
  exists (c :: o), rest. split; [reflexivity|]. simpl. congruence.
Qed.

Lemma span_split f s :
  exists w rest,
    s = w ++ rest /\ length w = span_len f s /\ Forall (fun c => f c = true) w.
Proof.
  induction s as [|c s [w [rest [E [Hl Hw]]]]].
  - exists [], []. repeat split. constructor.
  - simpl. destruct (f c) eqn:Hc.
    + exists (c :: w), rest. subst. repeat split; simpl; auto.
    + exists [], (c :: s). repeat split. constructor.
Qed.

Lemma lower_ORDER_BY : map lower_ascii ORDER_BY = of_string "order by".
Proof. reflexivity. Qed.

Lemma is_orderby_ORDER_BY : is_orderby ORDER_BY.
Proof. reflexivity. Qed.

Lemma is_orderby_length o : is_orderby o -> length o = 8.
Proof. intros H. apply (f_equal (@length _)) in H. now rewrite length_map in H. Qed.

Lemma orderby_match_inv s n :
  orderby_match s = Some n ->
  exists o1 w o2 rest,
    s = o1 ++ w ++ o2 ++ rest /\ n = length (o1 ++ w ++ o2) /\
    is_orderby o1 /\ is_orderby o2 /\ all_space w /\ w <> [].
Proof.
  unfold orderby_match. destruct (startswith_ci ORDER_BY s) eqn:E1; [|discriminate].
  destruct (startswith_ci_inv _ _ E1) as [o1 [t [-> Ho1]]].
  rewrite lower_ORDER_BY in Ho1. fold (is_orderby o1) in Ho1.
  pose proof (is_orderby_length _ Ho1) as L1.
  replace (skipn 8 (o1 ++ t)) with t by (rewrite <- L1; symmetry; apply skipn_length_app).
  destruct (span_split is_space t) as [w [t2 [-> [Lw Hw]]]].
  rewrite <- Lw.
  replace (skipn (8 + length w) (o1 ++ w ++ t2)) with t2.
  2:{ rewrite <- L1, <- length_app, app_assoc. symmetry. apply skipn_length_app. }
  destruct (0 <? length w) eqn:Ek; [|discriminate]. cbn [andb].
  destruct (startswith_ci ORDER_BY t2) eqn:E2; [|discriminate].
  destruct (startswith_ci_inv _ _ E2) as [o2 [rest [-> Ho2]]].
  rewrite lower_ORDER_BY in Ho2. fold (is_orderby o2) in Ho2.
  intros H. injection H as <-.
  exists o1, w, o2, rest. repeat split; auto.
  - rewrite !length_app, L1, (is_orderby_length _ Ho2). lia.
  - intros ->. discriminate.
Qed.

Lemma is_orderby_inv o :
  is_orderby o ->
  exists c1 c2 c3 c4 c5 c6 c7 c8,
    o = [c1; c2; c3; c4; c5; c6; c7; c8] /\
    lower_ascii c1 = 111%N /\ lower_ascii c2 = 114%N /\
    lower_ascii c3 = 100%N /\ lower_ascii c4 = 101%N /\
    lower_ascii c5 = 114%N /\ lower_ascii c6 = 32%N /\
    lower_ascii c7 = 98%N /\ lower_ascii c8 = 121%N.
Proof.
  unfold is_orderby.
  change (of_string "order by") with [111; 114; 100; 101; 114; 32; 98; 121]%N.
  intros H.
  destruct o as [|c1 [|c2 [|c3 [|c4 [|c5 [|c6 [|c7 [|c8 [|c9 o]]]]]]]]];
    try discriminate H.
  simpl in H. injection H as H1 H2 H3 H4 H5 H6 H7 H8.
  exists c1, c2, c3, c4, c5, c6, c7, c8. repeat split; assumption.
Qed.

Lemma is_orderby_letters o :
  is_orderby o -> Forall (fun c => orderby_letter c = true) o.
Proof.
  intros H. destruct (is_orderby_inv _ H)
    as (c1 & c2 & c3 & c4 & c5 & c6 & c7 & c8 & -> & H1 & H2 & H3 & H4 & H5 & H6 & H7 & H8).
  unfold orderby_letter.
  repeat constructor; [rewrite H1|rewrite H2|rewrite H3|rewrite H4|rewrite H5
                      |rewrite H6|rewrite H7|rewrite H8]; reflexivity.
Qed.

Lemma orderby_letter_cases c :
  orderby_letter c = true ->
  (c = 32 \/ c = 66 \/ c = 68 \/ c = 69 \/ c = 79 \/ c = 82 \/ c = 89 \/
   c = 98 \/ c = 100 \/ c = 101 \/ c = 111 \/ c = 114 \/ c = 121)%N.
Proof.
  unfold orderby_letter, contains.
  change (of_string "order by") with [111; 114; 100; 101; 114; 32; 98; 121]%N.
  unfold existsb, lower_ascii.
  destruct ((65 <=? c)%N && (c <=? 90)%N) eqn:E; intros H; char_bools.
Qed.

(** Proof principles for the two substitutions, by the shape of a match. *)
Lemma collapse_ind (P : str -> str -> Prop) :
  P [] [] ->
  (forall c r, orderby_match (c :: r) = None ->
     P r (collapse_order_by r) -> P (c :: r) (c :: collapse_order_by r)) ->
  (forall o1 w o2 rest,
     is_orderby o1 -> is_orderby o2 -> all_space w -> w <> [] ->
     P rest (collapse_order_by rest) ->
     P (o1 ++ w ++ o2 ++ rest) (ORDER_BY ++ collapse_order_by rest)) ->
  forall s, P s (collapse_order_by s).
Proof.
  intros Hnil Hcopy Hmatch. unfold collapse_order_by in *.
  apply re_sub_ind; [exact Hnil| |].
  - intros c r Hm IH. apply Hcopy; [|exact IH].
    destruct (orderby_match (c :: r)) as [[|k]|] eqn:E; [|now elim (Hm k)|reflexivity].
    destruct (orderby_match_inv _ _ E) as (o1 & w & o2 & rest & _ & Hn & H1 & _).
    rewrite length_app, (is_orderby_length _ H1) in Hn. discriminate.
  - intros c r k Hm IH.
    destruct (orderby_match_inv _ _ Hm) as (o1 & w & o2 & rest & E & Hn & H1 & H2 & Hw & Hne).
    assert (Hr : skipn k r = rest).
    { change (skipn k r) with (skipn (S k) (c :: r)).
      rewrite E, Hn, !app_assoc. rewrite <- (app_assoc o1 w o2).
      apply skipn_length_app. }
    rewrite Hr in *. rewrite E. now apply Hmatch.
Qed.

Lemma strip_fences_ind (P : str -> str -> Prop) :
  P [] [] ->
  (forall c r, fence_match (c :: r) = None ->
     P r (strip_fences r) -> P (c :: r) (c :: strip_fences r)) ->
  (forall b rest,
     fence_match (fence ++ b ++ fence ++ rest) = Some (length (fence ++ b ++ fence)) ->
     P rest (strip_fences rest) ->
     P (fence ++ b ++ fence ++ rest) (strip_fences rest)) ->
  forall s, P s (strip_fences s).
Proof.
  intros Hnil Hcopy Hmatch. unfold strip_fences in *.
  apply re_sub_ind; [exact Hnil| |].
  - intros c r Hm IH. apply Hcopy; [|exact IH].
    destruct (fence_match (c :: r)) as [[|k]|] eqn:E; [|now elim (Hm k)|reflexivity].
    destruct (fence_match_inv _ _ E) as (b & rest & _ & Hn). discriminate.
  - intros c r k Hm IH.
    destruct (fence_match_inv _ _ Hm) as (b & rest & E & Hn).
    assert (Hr : skipn k r = rest).
    { change (skipn k r) with (skipn (S k) (c :: r)).
      rewrite E, Hn, !app_assoc. rewrite <- (app_assoc fence b fence).
      apply skipn_length_app. }
    rewrite Hr in *. rewrite E in *. rewrite Hn in Hm. now apply Hmatch.
Qed.

(** ** The pattern of the dropped lines *)

Lemma bad_line_run_chars q s :
  bad_line_run q s = true -> Forall (fun c => bad_char c = true) s.
Proof.
  revert q. induction s as [|c s IH]; intros q H; [constructor|].
  assert (Hc : bad_char c = true /\ exists q', bad_line_run q' s = true).
  { unfold bad_char. destruct q; simpl in H.
    - apply andb_true_iff in H. destruct H as [-> H]. eauto.
    - destruct (is_word c); [eauto|].
      destruct (N.eqb c chr_comma); [eauto|].
      apply andb_true_iff in H. destruct H as [-> H]. simpl. eauto.
    - destruct (is_word c); [eauto|].
      apply andb_true_iff in H. destruct H as [-> H].
      rewrite orb_true_r. eauto.
    - apply andb_true_iff in H. destruct H as [-> H].
      rewrite orb_true_r. eauto. }
  destruct Hc as [Hc [q' Hq]]. constructor; [exact Hc|exact (IH q' Hq)].
Qed.

Lemma bad_char_count c s :
  bad_char c = false -> Forall (fun d => bad_char d = true) s -> count c s = 0.
Proof.
  intros Hc. induction 1 as [|d s Hd _ IH]; [reflexivity|].
  rewrite count_cons, IH. destruct (N.eqb_spec c d); [congruence|reflexivity].
Qed.

Lemma count_strip c s : is_space c = false -> count c (strip s) = count c s.
Proof.
  intros Hc. destruct (strip_decomp s) as (w1 & w2 & E & H1 & H2).
  rewrite E at 2.
  rewrite !count_app, (count_all_space c w1), (count_all_space c w2) by assumption.
  lia.
Qed.

Lemma count_lstrip c s : is_space c = false -> count c (lstrip s) = count c s.
Proof.
  intros Hc. destruct (lstrip_decomp s) as (w & E & H).
  rewrite E at 2. rewrite count_app, (count_all_space c w) by assumption. lia.
Qed.

(** A line with a character foreign to the pattern is kept. *)
Lemma keep_line_foreign c line :
  bad_char c = false -> 0 < count c line -> keep_line line = true.
Proof.
  intros Hc Hn. unfold keep_line.
  destruct (bad_line_match (strip line)) eqn:E; [|now rewrite orb_true_r].
  apply bad_line_run_chars in E. apply (bad_char_count c) in E; [|assumption].
  rewrite count_strip in E; [lia|].
  unfold bad_char in Hc. apply orb_false_iff in Hc. tauto.
Qed.

(** ** At most one [;], and at the end *)

Lemma truncate_semi s :
  contains chr_semi s = true ->
  exists p, truncate s = p ++ [chr_semi] /\ count chr_semi p = 0.
Proof.
  intros H. unfold truncate. rewrite H.
  exists (hd [] (split chr_semi s)). split; [reflexivity|apply split_head_clean].
Qed.

Lemma truncate_no_semi s : contains chr_semi s = false -> truncate s = s.
Proof. intros H. unfold truncate. now rewrite H. Qed.

Lemma lines_semi p :
  count chr_semi p = 0 ->
  exists p', join [chr_lf] (filter keep_line (splitlines (p ++ [chr_semi])))
             = p' ++ [chr_semi] /\ count chr_semi p' = 0.
Proof.
  intros Hp.
  destruct (splitlines_snoc chr_semi p eq_refl) as (init & l & E).
  assert (Hs : sum_count chr_semi (init ++ [l ++ [chr_semi]]) = 1).
  { rewrite <- E, sum_count_splitlines by reflexivity.
    rewrite count_app, Hp. reflexivity. }
  rewrite sum_count_app in Hs. unfold sum_count at 2 in Hs. simpl in Hs.
  rewrite count_app in Hs. change (count chr_semi [chr_semi]) with 1 in Hs.
  assert (Hk : keep_line (l ++ [chr_semi]) = true).
  { apply (keep_line_foreign chr_semi); [reflexivity|].
    rewrite count_app. change (count chr_semi [chr_semi]) with 1. lia. }
  rewrite E, filter_app. simpl. rewrite Hk.
  rewrite join_snoc. eexists. split; [reflexivity|].
  rewrite count_join by reflexivity.
  rewrite sum_count_app. unfold sum_count at 2. simpl.
  pose proof (sum_count_filter chr_semi keep_line init). lia.
Qed.

Lemma count_lines c s :
  is_linebreak c = false ->
  count c (join [chr_lf] (filter keep_line (splitlines s))) <= count c s.
Proof.
  intros Hc. rewrite count_join.
  - rewrite <- (sum_count_splitlines c s Hc). apply sum_count_filter.
  - rewrite count_cons, count_nil.
    destruct (N.eqb_spec c chr_lf); [subst; discriminate|reflexivity].
Qed.

Lemma count_collapse c s :
  count c ORDER_BY = 0 -> count c (collapse_order_by s) <= count c s.
Proof.
  intros Hc. revert s.
  apply (collapse_ind (fun s out => count c out <= count c s)).
  - reflexivity.
  - intros d r _ IH. rewrite !count_cons. lia.
  - intros o1 w o2 rest _ _ _ _ IH. rewrite !count_app, Hc. lia.
Qed.

Lemma is_orderby_last o :
  is_orderby o -> exists o' c, o = o' ++ [c] /\ c <> chr_semi /\ is_space c = false.
Proof.
  intros H. destruct (is_orderby_inv _ H)
    as (c1 & c2 & c3 & c4 & c5 & c6 & c7 & c8 & -> & _ & _ & _ & _ & _ & _ & _ & H8).
  exists [c1; c2; c3; c4; c5; c6; c7], c8. split; [reflexivity|].
  unfold lower_ascii in H8.
  destruct ((65 <=? c8)%N && (c8 <=? 90)%N) eqn:E; split; char_bools.
Qed.

Lemma collapse_semi p :
  exists p', collapse_order_by (p ++ [chr_semi]) = p' ++ [chr_semi]
             /\ count chr_semi p' <= count chr_semi p.
Proof.
  remember (p ++ [chr_semi]) as s eqn:Es. revert p Es.
  apply (collapse_ind (fun s out => forall p, s = p ++ [chr_semi] ->
    exists p', out = p' ++ [chr_semi] /\ count chr_semi p' <= count chr_semi p)).
  - intros p E. now destruct p.
  - intros c r _ IH p E. destruct p as [|d p]; simpl in E.
    + injection E as -> ->. exists []. split; [reflexivity|lia].
    + injection E as -> ->. destruct (IH p eq_refl) as (p' & -> & Hc).
      exists (d :: p'). split; [reflexivity|]. rewrite !count_cons. lia.
  - intros o1 w o2 rest _ H2 _ _ IH p E.
    destruct (is_orderby_last _ H2) as (o' & c & -> & Hc & _).
    destruct (exists_last (l := rest)) as (rest' & z & ->).
    + intros ->. rewrite app_nil_r, !app_assoc in E.
      apply app_inj_tail in E. destruct E as [_ E]. congruence.
    + rewrite !app_assoc in E. apply app_inj_tail in E. destruct E as [<- ->].
      destruct (IH rest' eq_refl) as (p' & -> & Hp).
      exists (ORDER_BY ++ p'). split; [now rewrite app_assoc|].
      rewrite !count_app. change (count chr_semi ORDER_BY) with 0. lia.
Qed.

(** ** The steps of [clean_sql] *)

Lemma clean_sql_steps x :
  clean_sql x =
  strip (collapse_order_by (join [chr_lf]
    (filter keep_line (splitlines (strip (truncate (strip_fences x))))))).
Proof.
  unfold clean_sql. now rewrite fold_filter_step.
Qed.

Lemma clean_sql_semi_present x :
  contains chr_semi (strip_fences x) = true ->
  exists p, clean_sql x = p ++ [chr_semi] /\ count chr_semi p = 0.
Proof.
  intros H. rewrite clean_sql_steps.
  destruct (truncate_semi _ H) as (p1 & -> & H1).
  rewrite strip_snoc by reflexivity.
  destruct (lines_semi (lstrip p1)) as (p2 & -> & H2).
  { now rewrite count_lstrip. }
  destruct (collapse_semi p2) as (p3 & -> & H3).
  rewrite strip_snoc by reflexivity.
  exists (lstrip p3). split; [reflexivity|].
  rewrite count_lstrip by reflexivity. lia.
Qed.

Lemma clean_sql_semi_absent x :
  contains chr_semi (strip_fences x) = false -> count chr_semi (clean_sql x) = 0.
Proof.
  intros H. rewrite clean_sql_steps. rewrite truncate_no_semi by assumption.
  apply contains_count in H.
  rewrite count_strip by reflexivity.
  pose proof (count_collapse chr_semi
    (join [chr_lf] (filter keep_line (splitlines (strip (strip_fences x))))) eq_refl).
  pose proof (count_lines chr_semi (strip (strip_fences x)) eq_refl) as H1.
  rewrite count_strip in H1 by reflexivity. lia.
Qed.

(** ** Fenced blocks *)

Lemma startswith_fence_inside c a s :
  startswith fence (c :: a ++ [chr_backtick; chr_backtick]) = false ->
  startswith fence (c :: a ++ s) = false.
Proof.
  destruct a as [|d [|e a]]; simpl.
  - rewrite !andb_true_r. intros ->. reflexivity.
  - rewrite !andb_true_r. intros H.
    destruct (N.eqb chr_backtick c); [|reflexivity].
    simpl in *. now rewrite H.
  - exact (fun H => H).
Qed.

Lemma find_fence_none a :
  find fence (a ++ [chr_backtick; chr_backtick]) = None ->
  match a with
  | [] => True
  | c :: a' =>
      startswith fence (c :: a' ++ [chr_backtick; chr_backtick]) = false /\
      find fence (a' ++ [chr_backtick; chr_backtick]) = None
  end.
Proof.
  destruct a as [|c a']; [trivial|].
  simpl app. intros H. simpl in H.
  destruct (N.eqb chr_backtick c && _) eqn:E; [discriminate|].
  split; [exact E|].
  destruct (find fence (a' ++ [chr_backtick; chr_backtick])); [discriminate|reflexivity].
Qed.

Lemma strip_fences_cons c r :
  strip_fences (c :: r) =
  match fence_match (c :: r) with
  | Some (S k) => strip_fences (skipn k r)
  | _ => c :: strip_fences r
  end.
Proof. unfold strip_fences. rewrite re_sub_cons. reflexivity. Qed.

(** Text before the first fence is copied. *)
Lemma strip_fences_prefix a s :
  find fence (a ++ [chr_backtick; chr_backtick]) = None ->
  strip_fences (a ++ s) = a ++ strip_fences s.
Proof.
  induction a as [|c a IH]; intros H; [reflexivity|].
  apply find_fence_none in H. destruct H as [H1 H2].
  rewrite <- app_comm_cons, strip_fences_cons. unfold fence_match.
  rewrite (startswith_fence_inside _ _ _ H1). now rewrite IH.
Qed.

Lemma find_fence_first b s :
  find fence (b ++ [chr_backtick; chr_backtick]) = None ->
  find fence (b ++ fence ++ s) = Some (length b).
Proof.
  induction b as [|c b IH]; intros H; [reflexivity|].
  apply find_fence_none in H. destruct H as [H1 H2].
  rewrite <- app_comm_cons, find_cons.
  rewrite (startswith_fence_inside _ _ _ H1), IH by assumption. reflexivity.
Qed.

(** A fenced block goes, fences and content. *)
Lemma strip_fences_block b s :
  find fence (b ++ [chr_backtick; chr_backtick]) = None ->
  strip_fences (fence ++ b ++ fence ++ s) = strip_fences s.
Proof.
  intros H. change (fence ++ b ++ fence ++ s)
    with (chr_backtick :: chr_backtick :: chr_backtick :: b ++ fence ++ s).
  rewrite strip_fences_cons. unfold fence_match.
  change (startswith fence (chr_backtick :: chr_backtick :: chr_backtick :: b ++ fence ++ s))
    with true.
  change (skipn 3 (chr_backtick :: chr_backtick :: chr_backtick :: b ++ fence ++ s))
    with (b ++ fence ++ s).
  rewrite find_fence_first by assumption.
  change (3 + length b + 3) with (S (2 + length b + 3)).
  cbv iota beta.
  replace (2 + length b + 3) with (length ([chr_backtick; chr_backtick] ++ b ++ fence))
    by (rewrite !length_app; simpl; lia).
  change (chr_backtick :: chr_backtick :: b ++ fence ++ s)
    with ([chr_backtick; chr_backtick] ++ b ++ fence ++ s).
  rewrite !app_assoc. rewrite <- (app_assoc _ b fence).
  now rewrite skipn_length_app.
Qed.

Lemma clean_sql_by_fences x y :
  strip_fences x = strip_fences y -> clean_sql x = clean_sql y.
Proof. intros H. rewrite !clean_sql_steps. now rewrite H. Qed.

(** ** Lengths *)

Lemma length_strip_fences s : length (strip_fences s) <= length s.
Proof.
  revert s. apply (strip_fences_ind (fun s out => length out <= length s)).
  - reflexivity.
  - intros c r _ IH. simpl. lia.
  - intros b rest _ IH. rewrite !length_app. lia.
Qed.

Lemma length_truncate s : length (truncate s) <= length s.
Proof.
  unfold truncate. destruct (contains chr_semi s) eqn:E; [|reflexivity].
  destruct (split_head_decomp _ _ E) as [rest Hs].
  rewrite Hs at 2. rewrite !length_app. simpl. lia.
Qed.

Lemma length_strip s : length (strip s) <= length s.
Proof.
  destruct (strip_decomp s) as (w1 & w2 & E & _).
  rewrite E at 2. rewrite !length_app. lia.
Qed.

Lemma length_lines s :
  length (join [chr_lf] (filter keep_line (splitlines s))) <= length s.
Proof.
  rewrite length_join_sum.
  pose proof (length_sum_filter keep_line (splitlines s)).
  pose proof (length_sum_splitlines s). lia.
Qed.

Lemma length_collapse s : length (collapse_order_by s) <= length s.
Proof.
  revert s. apply (collapse_ind (fun s out => length out <= length s)).
  - reflexivity.
  - intros c r _ IH. simpl. lia.
  - intros o1 w o2 rest H1 H2 _ _ IH.
    rewrite !length_app, (is_orderby_length _ H1), (is_orderby_length _ H2).
    change (length ORDER_BY) with 8. lia.
Qed.

(** ** Texts without a special character *)

Lemma strip_fences_no_backtick s :
  count chr_backtick s = 0 -> strip_fences s = s.
Proof.
  revert s. apply (strip_fences_ind (fun s out => count chr_backtick s = 0 -> out = s)).
  - reflexivity.
  - intros c r _ IH H. rewrite count_cons in H. f_equal. apply IH. lia.
  - intros b rest _ _ H. rewrite count_app in H.
    change (count chr_backtick fence) with 3 in H. lia.
Qed.



Lemma splitlines_one_line s :
  s <> [] -> Forall (fun c => is_linebreak c = false) s -> splitlines s = [s].
Proof.
  intros Hne H. induction H as [|c s Hc Hs IH]; [congruence|].
  rewrite splitlines_char by assumption.
  destruct s as [|d s]; [reflexivity|]. rewrite IH by discriminate. reflexivity.
Qed.





(** ** [lower] and [startswith] against comparison without regard to case *)

Lemma lower_cons c s : lower (c :: s) = lower_char c ++ lower s.
Proof. reflexivity. Qed.

Lemma startswith_cons a p c s :
  startswith (a :: p) (c :: s) = N.eqb a c && startswith p s.
Proof. reflexivity. Qed.

Lemma startswith_ci_cons a p c s :
  startswith_ci (a :: p) (c :: s) =
  N.eqb (lower_ascii a) (lower_ascii c) && startswith_ci p s.
Proof. reflexivity. Qed.

Lemma startswith_lower kw s :
  plain_keyword kw = true -> startswith kw (lower s) = startswith_ci kw s.
Proof.
  revert s. induction kw as [|a kw IH]; intros s Hkw; [reflexivity|].
  simpl in Hkw. apply andb_true_iff in Hkw. destruct Hkw as [Ha Hkw].
  apply andb_true_iff in Ha. destruct Ha as [Ha Hi].
  apply andb_true_iff in Ha. destruct Ha as [Ha Hk].
  destruct s as [|c s]; [reflexivity|].
  rewrite lower_cons, startswith_ci_cons, <- (IH s Hkw).
  assert (La : lower_ascii a = a) by (unfold lower_ascii;
    destruct ((65 <=? a)%N && (a <=? 90)%N) eqn:E; [char_bools|reflexivity]).
  rewrite La. unfold lower_char, lower_ascii.
  destruct ((65 <=? c)%N && (c <=? 90)%N) eqn:Eu; [reflexivity|].
  destruct (N.eqb_spec c 304) as [->|H304].
  - simpl app. rewrite startswith_cons.
    destruct (N.eqb_spec a 304) as [->|_]; [discriminate Ha|].
    destruct (N.eqb_spec a 105) as [->|_]; [|reflexivity].
    simpl in Hi. destruct kw as [|b kw]; [discriminate|].
    rewrite startswith_cons. simpl in Hkw.
    destruct (N.eqb_spec b 775) as [->|_]; [discriminate Hkw|reflexivity].
  - destruct (N.eqb_spec c 8490) as [->|H8490].
    + simpl app. rewrite startswith_cons.
      destruct (N.eqb_spec a 8490) as [->|_]; [discriminate Ha|].
      destruct (N.eqb_spec a 107) as [->|_]; [discriminate Hk|reflexivity].
    + reflexivity.
Qed.

Lemma is_sql_line_spec line : is_sql_line line = spec_sql_line line.
Proof.
  unfold is_sql_line, spec_sql_line, startswith_any.
  change spec_keywords with sql_keywords.
  assert (H : Forall (fun kw => plain_keyword kw = true) sql_keywords)
    by (repeat constructor).
  induction H as [|kw kws Hkw _ IH]; [reflexivity|].
  cbn [existsb]. now rewrite startswith_lower, IH.
Qed.

Lemma keep_line_spec line : keep_line line = spec_keeps line.
Proof.
  unfold keep_line, spec_keeps, spec_classify. rewrite is_sql_line_spec.
  destruct (spec_sql_line line); [reflexivity|].
  now destruct (bad_line_match (strip line)).
Qed.

(** ** The automaton accepts the language of the pattern *)

Lemma space_not_word c : is_space c = true -> is_word c = false.
Proof. intros H. char_bools. Qed.

Lemma space_not_comma c : is_space c = true -> N.eqb c chr_comma = false.
Proof. intros H. char_bools. Qed.

Lemma run_trail w : all_space w -> bad_line_run BTrail w = true.
Proof. induction 1 as [|c w Hc _ IH]; [reflexivity|]. simpl. now rewrite Hc. Qed.

Lemma run_trail_inv s : bad_line_run BTrail s = true -> all_space s.
Proof.
  induction s as [|c s IH]; intros H; [constructor|]. simpl in H.
  apply andb_true_iff in H. destruct H as [Hc H].
  constructor; [exact Hc|exact (IH H)].
Qed.

Lemma run_word_app w rest :
  Forall (fun c => is_word c = true) w ->
  bad_line_run BWord (w ++ rest) = bad_line_run BWord rest.
Proof. induction 1 as [|c w Hc _ IH]; [reflexivity|]. simpl. now rewrite Hc. Qed.

Lemma run_comma_space sp rest :
  all_space sp -> bad_line_run BComma (sp ++ rest) = bad_line_run BComma rest.
Proof.
  induction 1 as [|c sp Hc _ IH]; [reflexivity|]. simpl.
  now rewrite (space_not_word c Hc), Hc.
Qed.

Lemma run_word_tail rest : bare_tail rest -> bad_line_run BWord rest = true.
Proof.
  induction 1 as [w Hw|sp w rest Hsp [Hne Hw] _ IH].
  - destruct Hw as [|c w Hc Hw]; [reflexivity|]. simpl.
    rewrite (space_not_word c Hc), (space_not_comma c Hc), Hc.
    now apply run_trail.
  - simpl. rewrite run_comma_space by assumption.
    destruct Hw as [|c w Hc Hw]; [congruence|].
    simpl. rewrite Hc. now rewrite run_word_app.
Qed.

Lemma run_word_comma_inv s :
  (bad_line_run BWord s = true ->
   exists w rest, s = w ++ rest /\ Forall (fun c => is_word c = true) w
                  /\ bare_tail rest) /\
  (bad_line_run BComma s = true ->
   exists sp w rest, s = sp ++ w ++ rest /\ all_space sp /\ ident w
                     /\ bare_tail rest).
Proof.
  induction s as [|c s [IHw IHc]]; split; intros H.
  - exists [], []. split; [reflexivity|]. split; [constructor|].
    apply bare_end. constructor.
  - discriminate.
  - simpl in H. destruct (is_word c) eqn:Hc.
    + destruct (IHw H) as (w & rest & -> & Hw & Ht).
      exists (c :: w), rest. split; [reflexivity|].
      split; [now constructor|assumption].
    + destruct (N.eqb_spec c chr_comma) as [->|Hn].
      * destruct (IHc H) as (sp & w & rest & -> & Hsp & Hw & Ht).
        exists [], (chr_comma :: sp ++ w ++ rest).
        split; [reflexivity|]. split; [constructor|]. now apply bare_item.
      * apply andb_true_iff in H. destruct H as [Hs H].
        exists [], (c :: s). split; [reflexivity|]. split; [constructor|].
        apply bare_end. constructor; [assumption|now apply run_trail_inv].
  - simpl in H. destruct (is_word c) eqn:Hc.
    + destruct (IHw H) as (w & rest & -> & Hw & Ht).
      exists [], (c :: w), rest. split; [reflexivity|]. split; [constructor|].
      split; [|assumption]. split; [discriminate|now constructor].
    + apply andb_true_iff in H. destruct H as [Hs H].
      destruct (IHc H) as (sp & w & rest & -> & Hsp & Hw & Ht).
      exists (c :: sp), w, rest. split; [reflexivity|].
      split; [now constructor|]. split; assumption.
Qed.

Lemma bad_line_match_bare_list s : bad_line_match s = true <-> bare_list s.
Proof.
  unfold bad_line_match, bare_list. split.
  - intros H. destruct s as [|c s]; [discriminate|]. simpl in H.
    apply andb_true_iff in H. destruct H as [Hc H].
    destruct (proj1 (run_word_comma_inv s) H) as (w & rest & -> & Hw & Ht).
    exists (c :: w), rest. split; [reflexivity|]. split; [|assumption].
    split; [discriminate|now constructor].
  - intros (w & rest & -> & [Hne Hw] & Ht).
    destruct Hw as [|c w Hc Hw]; [congruence|]. simpl. rewrite Hc.
    rewrite run_word_app by assumption. now apply run_word_tail.
Qed.

(** ** The prompts hold their arguments *)

Lemma join_holds sep pre x post :
  exists head tail, join sep (pre ++ x :: post) = head ++ x ++ tail.
Proof.
  induction pre as [|l pre (head & tail & IH)].
  - destruct post as [|l' post].
    + exists [], []. simpl. now rewrite app_nil_r.
    + exists [], (sep ++ join sep (l' :: post)). reflexivity.
  - exists (l ++ sep ++ head), tail.
    rewrite <- app_comm_cons, join_cons_ne, IH by (now destruct pre).
    now rewrite <- !app_assoc.
Qed.

Lemma SQL_BUILDER_PROMPT_holds_plan plan :
  exists head tail, req_prompt (sql_request plan) = head ++ plan ++ tail.
Proof.
  unfold sql_request, SQL_BUILDER_PROMPT. cbn [req_prompt].
  match goal with
  | |- exists head tail, _ ++ join _ ?ls ++ _ = _ =>
      change ls with (firstn 10 ls ++ plan :: skipn 11 ls)
  end.
  destruct (join_holds [chr_lf]
    (firstn 10 [of_string "Convert PLAN into valid DuckDB SQL."; []; of_string "STRICT RULES:"; of_string "- USE FILTERS EXACTLY AS WRITTEN."; of_string "- DO NOT add, modify, or remove filters."; of_string "- SELECT may include ONLY grouping columns + aggregates."; of_string "- SQL must SELECT FROM cars."; of_string "- No comments or markdown."; []; of_string "PLAN:"; plan; []; of_string "Return only the SQL:"])
    plan
    (skipn 11 [of_string "Convert PLAN into valid DuckDB SQL."; []; of_string "STRICT RULES:"; of_string "- USE FILTERS EXACTLY AS WRITTEN."; of_string "- DO NOT add, modify, or remove filters."; of_string "- SELECT may include ONLY grouping columns + aggregates."; of_string "- SQL must SELECT FROM cars."; of_string "- No comments or markdown."; []; of_string "PLAN:"; plan; []; of_string "Return only the SQL:"]))
    as (head & tail & E).
  rewrite E. exists ([chr_lf] ++ head), (tail ++ [chr_lf]).
  now rewrite <- !app_assoc.
Qed.

(** ** Counting fences *)

Lemma fence_count_cons k c r :
  fence_count k (c :: r) =
  if N.eqb c chr_backtick then
    match k with
    | O => fence_count 1 r
    | S O => fence_count 2 r
    | S (S _) => S (fence_count 0 r)
    end
  else fence_count 0 r.
Proof. reflexivity. Qed.

Lemma fence_count_two k s : fence_count (S (S k)) s = fence_count 2 s.
Proof. destruct s; reflexivity. Qed.

Lemma fence_count_states s :
  fence_count 0 s <= fence_count 1 s /\
  fence_count 1 s <= fence_count 2 s /\
  fence_count 2 s <= S (fence_count 0 s).
Proof.
  induction s as [|c s (H01 & H12 & H20)]; [simpl; lia|].
  rewrite !fence_count_cons. destruct (N.eqb c chr_backtick); lia.
Qed.

Lemma fence_count_from_0 k s : fence_count 0 s <= fence_count k s.
Proof.
  destruct (fence_count_states s) as (H01 & H12 & _).
  destruct k as [|[|k]]; [lia|lia|]. rewrite fence_count_two. lia.
Qed.

Lemma fence_count_to_0 k s : fence_count k s <= S (fence_count 0 s).
Proof.
  destruct (fence_count_states s) as (H01 & H12 & H20).
  destruct k as [|[|k]]; [lia|lia|]. rewrite fence_count_two. lia.
Qed.

Lemma fence_count_prefix a b k : fence_count k a <= fence_count k (a ++ b).
Proof.
  revert k. induction a as [|c a IH]; intros k; [simpl; lia|].
  rewrite <- app_comm_cons, !fence_count_cons.
  destruct (N.eqb c chr_backtick); [|apply IH].
  destruct k as [|[|k]]; [apply IH|apply IH|]. apply le_n_S, IH.
Qed.

Lemma fence_count_suffix a b k : fence_count 0 b <= fence_count k (a ++ b).
Proof.
  revert k. induction a as [|c a IH]; intros k; [apply fence_count_from_0|].
  rewrite <- app_comm_cons, fence_count_cons.
  destruct (N.eqb c chr_backtick); [|apply IH].
  destruct k as [|[|k]]; [apply IH|apply IH|]. pose proof (IH 0). lia.
Qed.

(** A text without backticks, not empty, sets the count back. *)
Lemma fence_count_plain a b k :
  a <> [] -> count chr_backtick a = 0 ->
  fence_count k (a ++ b) = fence_count 0 b.
Proof.
  intros Hne. destruct a as [|c a]; [congruence|]. clear Hne.
  revert c k. induction a as [|d a IH]; intros c k H;
    rewrite count_cons in H; rewrite <- app_comm_cons, fence_count_cons;
    destruct (N.eqb_spec c chr_backtick) as [->|Hc];
    try (rewrite N.eqb_refl in H; simpl in H; lia).
  - reflexivity.
  - apply IH. lia.
Qed.

Lemma fence_count_fence k t :
  S (fence_count 0 t) <= fence_count k (fence ++ t).
Proof.
  unfold fence. rewrite <- !app_comm_cons. simpl app.
  pose proof (fence_count_from_0 1 t). pose proof (fence_count_from_0 2 t).
  destruct k as [|[|k]]; rewrite !fence_count_cons, !N.eqb_refl; lia.
Qed.

Lemma find_suffix_none p c s : find p (c :: s) = None -> find p s = None.
Proof.
  rewrite find_cons. destruct (startswith p (c :: s)); [discriminate|].
  destruct (find p s); [discriminate|reflexivity].
Qed.

(** Without an occurrence of the fence the count stays at zero, also after
    [k] backticks. *)
Lemma fence_count_no_fence k s :
  k <= 2 ->
  find fence (repeat chr_backtick k ++ s) = None -> fence_count k s = 0.
Proof.
  revert k. induction s as [|c s IH]; intros k Hk H; [reflexivity|].
  rewrite fence_count_cons.
  destruct (N.eqb_spec c chr_backtick) as [->|Hc].
  - destruct k as [|[|[|k]]]; [| | |lia].
    + apply (IH 1); [lia|exact H].
    + apply (IH 2); [lia|exact H].
    + discriminate H.
  - apply (IH 0); [lia|].
    destruct k as [|[|[|k]]]; [| | |lia]; cbn [repeat app] in H |- *.
    + now apply find_suffix_none in H.
    + now do 2 apply find_suffix_none in H.
    + now do 3 apply find_suffix_none in H.
Qed.

Lemma fence_match_count k s n :
  fence_match s = Some n -> 2 <= fence_count k s.
Proof.
  intros H. destruct (fence_match_inv _ _ H) as (b & rest & -> & _).
  pose proof (fence_count_fence k (b ++ fence ++ rest)).
  pose proof (fence_count_suffix b (fence ++ rest) 0).
  pose proof (fence_count_fence 0 rest). lia.
Qed.

(** A text with at most one fence is left as it is. *)
Lemma strip_fences_id s : fence_count 0 s <= 1 -> strip_fences s = s.
Proof.
  enough (H : forall k, fence_count k s <= 1 -> strip_fences s = s) by apply H.
  revert s.
  apply (strip_fences_ind (fun s out => forall k, fence_count k s <= 1 -> out = s)).
  - reflexivity.
  - intros c r _ IH k H. f_equal. rewrite fence_count_cons in H.
    destruct (N.eqb c chr_backtick); [|now apply (IH 0)].
    destruct k as [|[|k]]; [now apply (IH 1)|now apply (IH 2)|].
    apply (IH 0). lia.
  - intros b rest Hm _ k H. pose proof (fence_match_count k _ _ Hm). lia.
Qed.

Lemma lead_cons c r :
  lead (c :: r) = if N.eqb c chr_backtick then S (lead r) else 0.
Proof. reflexivity. Qed.

Lemma lead_startswith s : startswith fence s = false -> lead s <= 2.
Proof.
  destruct s as [|a [|b [|c s]]]; unfold fence; rewrite ?lead_cons, ?startswith_cons;
    cbn [lead span_len startswith];
    repeat match goal with
      | |- context [N.eqb ?x chr_backtick] =>
          rewrite (N.eqb_sym x chr_backtick); destruct (N.eqb chr_backtick x)
      end; simpl; intros H; try discriminate; lia.
Qed.

Lemma lead_fence t : 3 <= lead (fence ++ t).
Proof.
  unfold fence. rewrite <- !app_comm_cons, !lead_cons, !N.eqb_refl. lia.
Qed.

Lemma fence_match_none_open s :
  fence_match s = None -> startswith fence s = true ->
  fence_count 0 s = 1.
Proof.
  unfold fence_match. intros H Hs. rewrite Hs in H.
  destruct (startswith_inv _ _ Hs) as [u ->].
  change (skipn 3 (fence ++ u)) with u in H.
  destruct (find fence u) eqn:E; [discriminate|].
  unfold fence. rewrite <- !app_comm_cons, !fence_count_cons, !N.eqb_refl.
  simpl app. rewrite (fence_count_no_fence 0 u); [reflexivity|lia|exact E].
Qed.

(** What is left by the removal of the fenced blocks has no fenced block. *)
Lemma strip_fences_count x : fence_count 0 (strip_fences x) <= 1.
Proof.
  enough (H : fence_count 0 (strip_fences x) <= 1 /\
              forall k, k + lead x <= 2 -> fence_count k (strip_fences x) <= 1)
    by (destruct H as [H _]; exact H).
  revert x.
  apply (strip_fences_ind (fun s out =>
    fence_count 0 out <= 1 /\
    forall k, k + lead s <= 2 -> fence_count k out <= 1)).
  - split; [simpl; lia|]. intros k _. destruct k as [|[|k]]; simpl; lia.
  - intros c r Hm [IH0 IHk].
    destruct (startswith fence (c :: r)) eqn:Hs.
    + pose proof (fence_match_none_open _ Hm Hs) as H1.
      assert (E : c :: strip_fences r = c :: r).
      { pose proof (strip_fences_id (c :: r)) as E. 
        rewrite strip_fences_cons, Hm in E. apply E. lia. }
      rewrite E. split; [lia|]. intros k Hk.
      destruct (startswith_inv _ _ Hs) as [u Hu]. rewrite Hu in Hk.
      pose proof (lead_fence u). lia.
    + pose proof (lead_startswith _ Hs) as Hl.
      assert (Hk : forall k, k + lead (c :: r) <= 2 ->
                             fence_count k (c :: strip_fences r) <= 1).
      { intros k Hk. rewrite fence_count_cons. rewrite lead_cons in Hk.
        destruct (N.eqb c chr_backtick); [|exact IH0].
        destruct k as [|[|k]]; [apply IHk; lia|apply IHk; lia|lia]. }
      split; [apply (Hk 0); lia|exact Hk].
  - intros b rest _ [IH0 _]. split; [exact IH0|].
    intros k Hk. pose proof (lead_fence (b ++ fence ++ rest)). lia.
Qed.

Lemma fence_count_sep k a c b :
  c <> chr_backtick ->
  fence_count k (a ++ c :: b) = fence_count k a + fence_count 0 b.
Proof.
  intros Hc. revert k. induction a as [|d a IH]; intros k.
  - simpl app. rewrite fence_count_cons.
    destruct (N.eqb_spec c chr_backtick); [congruence|reflexivity].
  - rewrite <- app_comm_cons, !fence_count_cons.
    destruct (N.eqb d chr_backtick); [|apply IH].
    destruct k as [|[|k]]; rewrite IH; reflexivity.
Qed.

Lemma fence_count_truncate s :
  fence_count 0 (truncate s) <= fence_count 0 s.
Proof.
  unfold truncate. destruct (contains chr_semi s) eqn:E; [|reflexivity].
  destruct (split_head_decomp _ _ E) as [rest Hs].
  rewrite Hs at 2.
  change (hd [] (split chr_semi s) ++ chr_semi :: rest)
    with (hd [] (split chr_semi s) ++ [chr_semi] ++ rest).
  rewrite app_assoc. apply fence_count_prefix.
Qed.

Lemma fence_count_strip s : fence_count 0 (strip s) <= fence_count 0 s.
Proof.
  destruct (strip_decomp s) as (w1 & w2 & E & _).
  rewrite E at 2.
  pose proof (fence_count_suffix w1 (strip s ++ w2) 0).
  pose proof (fence_count_prefix (strip s) w2 0). lia.
Qed.

Lemma fence_count_join ls :
  fence_count 0 (join [chr_lf] ls) = sum_fences ls.
Proof.
  induction ls as [|l ls IH]; [reflexivity|].
  destruct ls as [|l' ls].
  - unfold sum_fences. simpl. lia.
  - rewrite join_cons. change ([chr_lf] ++ join [chr_lf] (l' :: ls))
      with (chr_lf :: join [chr_lf] (l' :: ls)).
    rewrite fence_count_sep by discriminate. rewrite IH. reflexivity.
Qed.

Lemma sum_fences_filter (p : str -> bool) ls :
  sum_fences (filter p ls) <= sum_fences ls.
Proof.
  induction ls as [|l ls IH]; [reflexivity|].
  simpl. destruct (p l); unfold sum_fences in *; simpl; lia.
Qed.

Lemma linebreak_not_backtick c :
  is_linebreak c = true -> N.eqb c chr_backtick = false.
Proof. intros H. char_bools. Qed.

Lemma fence_count_splitlines s :
  forall k,
    fence_count k s =
    match splitlines s with
    | [] => 0
    | l :: ls => fence_count k l + sum_fences ls
    end.
Proof.
  revert s. apply (splitlines_ind (fun s lines => forall k,
    fence_count k s =
    match lines with [] => 0 | l :: ls => fence_count k l + sum_fences ls end)).
  - reflexivity.
  - intros c r Hc IH k. rewrite fence_count_cons.
    destruct (splitlines r) as [|l ls].
    + rewrite fence_count_cons, !IH.
      destruct (N.eqb c chr_backtick); [destruct k as [|[|k]]|]; reflexivity.
    + rewrite fence_count_cons, !IH.
      destruct (N.eqb c chr_backtick); [destruct k as [|[|k]]|]; reflexivity.
  - intros c r Hc IH k. rewrite fence_count_cons, (linebreak_not_backtick c Hc), IH.
    destruct (splitlines r); reflexivity.
  - intros r IH k. rewrite !fence_count_cons.
    change (N.eqb chr_cr chr_backtick) with false.
    change (N.eqb chr_lf chr_backtick) with false. cbv iota. rewrite IH.
    destruct (splitlines r); reflexivity.
Qed.

Lemma fence_count_lines s :
  fence_count 0 (join [chr_lf] (filter keep_line (splitlines s)))
  <= fence_count 0 s.
Proof.
  rewrite fence_count_join, (fence_count_splitlines s 0).
  pose proof (sum_fences_filter keep_line (splitlines s)).
  destruct (splitlines s); [exact H|exact H].
Qed.

Lemma orderby_letter_count c o :
  orderby_letter c = false -> is_orderby o -> count c o = 0.
Proof.
  intros Hc Ho. apply is_orderby_letters in Ho.
  induction Ho as [|d o Hd _ IH]; [reflexivity|].
  rewrite count_cons, IH. destruct (N.eqb_spec c d); [congruence|reflexivity].
Qed.

Lemma is_orderby_not_nil o : is_orderby o -> o <> [].
Proof. intros H ->. discriminate H. Qed.

Lemma fence_count_collapse s :
  forall k, fence_count k (collapse_order_by s) <= fence_count k s.
Proof.
  revert s. apply (collapse_ind (fun s out =>
    forall k, fence_count k out <= fence_count k s)).
  - reflexivity.
  - intros c r _ IH k. rewrite !fence_count_cons.
    destruct (N.eqb c chr_backtick); [|apply IH].
    destruct k as [|[|k]]; [apply IH|apply IH|apply le_n_S, IH].
  - intros o1 w o2 rest H1 H2 Hw Hne IH k.
    rewrite (fence_count_plain ORDER_BY) by (discriminate || reflexivity).
    rewrite (fence_count_plain o1)
      by (apply is_orderby_not_nil || apply orderby_letter_count; auto).
    rewrite (fence_count_plain w) by (auto; now apply count_all_space).
    rewrite (fence_count_plain o2)
      by (apply is_orderby_not_nil || apply orderby_letter_count; auto).
    apply IH.
Qed.

(** The output of [clean_sql] has no fenced block. *)
Lemma clean_sql_fences x : strip_fences (clean_sql x) = clean_sql x.
Proof.
  apply strip_fences_id. rewrite clean_sql_steps.
  pose proof (strip_fences_count x).
  pose proof (fence_count_truncate (strip_fences x)).
  pose proof (fence_count_strip (truncate (strip_fences x))).
  pose proof (fence_count_lines (strip (truncate (strip_fences x)))).
  pose proof (fence_count_collapse
    (join [chr_lf] (filter keep_line (splitlines (strip (truncate (strip_fences x)))))) 0).
  pose proof (fence_count_strip (collapse_order_by
    (join [chr_lf] (filter keep_line (splitlines (strip (truncate (strip_fences x)))))))).
  lia.
Qed.

(** ** Lines between newlines *)

Lemma split_not_nil sep s : split sep s <> [].
Proof. destruct (split_cons sep s) as (l & ls & ->). discriminate. Qed.

Lemma split_hd_tl sep s : split sep s = hd [] (split sep s) :: tl (split sep s).
Proof. destruct (split_cons sep s) as (l & ls & ->). reflexivity. Qed.

Lemma removelast_cons {A} (x : A) l : l <> [] -> removelast (x :: l) = x :: removelast l.
Proof. destruct l; [congruence|reflexivity]. Qed.

Lemma last_cons {A} (x : A) l d : l <> [] -> last (x :: l) d = last l d.
Proof. destruct l; [congruence|reflexivity]. Qed.

Lemma split_app sep a b :
  split sep (a ++ b) =
  removelast (split sep a)
  ++ (last (split sep a) [] ++ hd [] (split sep b)) :: tl (split sep b).
Proof.
  induction a as [|c a IH].
  - simpl. apply split_hd_tl.
  - rewrite <- app_comm_cons. destruct (N.eq_dec c sep) as [->|Hc].
    + rewrite !split_cons_sep, IH.
      rewrite removelast_cons, last_cons by apply split_not_nil. reflexivity.
    + rewrite !(split_cons_other sep c) by assumption. rewrite IH.
      destruct (split_cons sep a) as (l & ls & E). rewrite E.
      destruct ls as [|l2 ls]; [reflexivity|].
      cbn [hd tl]. rewrite !(removelast_cons l) by discriminate.
      rewrite (removelast_cons (c :: l)) by discriminate.
      rewrite (last_cons l), (last_cons (c :: l)) by discriminate.
      reflexivity.
Qed.

Lemma split_no_sep sep s : count sep s = 0 -> split sep s = [s].
Proof.
  induction s as [|c s IH]; intros H; [reflexivity|].
  rewrite count_cons in H. destruct (N.eqb_spec sep c) as [->|Hc]; [simpl in H; lia|].
  rewrite split_cons_other by congruence. now rewrite IH.
Qed.

Lemma split_app_sep sep l r :
  count sep l = 0 -> split sep (l ++ sep :: r) = l :: split sep r.
Proof.
  intros H. rewrite split_app, (split_no_sep sep l H), split_cons_sep.
  simpl. now rewrite app_nil_r.
Qed.

Lemma split_join sep ls :
  ls <> [] -> Forall (fun l => count sep l = 0) ls ->
  split sep (join [sep] ls) = ls.
Proof.
  intros Hne H. induction H as [|l ls Hl Hls IH]; [congruence|].
  destruct ls as [|l' ls]; [now apply split_no_sep|].
  rewrite join_cons. change ([sep] ++ join [sep] (l' :: ls))
    with (sep :: join [sep] (l' :: ls)).
  rewrite split_app_sep by assumption. now rewrite IH.
Qed.

Lemma split_head_no_sep sep p r :
  count sep p = 0 -> hd [] (split sep (p ++ sep :: r)) = p.
Proof. intros H. now rewrite split_app_sep. Qed.

Lemma split_Forall (P : char -> Prop) sep s :
  Forall P s -> Forall (Forall P) (split sep s).
Proof.
  induction 1 as [|c s Hc Hs IH]; [repeat constructor|].
  simpl. destruct (N.eqb c sep); [constructor; [constructor|exact IH]|].
  destruct (split sep s) as [|l ls]; [repeat constructor; assumption|].
  inversion IH; subst. constructor; [now constructor|assumption].
Qed.

Lemma Forall_last {A} (P : A -> Prop) l d : Forall P l -> P d -> P (last l d).
Proof.
  intros H Hd. induction H as [|x l Hx Hl IH]; [exact Hd|].
  destruct l; [exact Hx|exact IH].
Qed.

Lemma Forall_hd {A} (P : A -> Prop) l d : Forall P l -> P d -> P (hd d l).
Proof. intros H Hd. destruct H; assumption. Qed.

Lemma Forall_tl {A} (P : A -> Prop) l : Forall P l -> Forall P (tl l).
Proof. intros H. destruct H; [constructor|assumption]. Qed.

Lemma Forall_removelast {A} (P : A -> Prop) l : Forall P l -> Forall P (removelast l).
Proof.
  induction 1 as [|x l Hx Hl IH]; [constructor|].
  destruct l; [constructor|]. rewrite removelast_cons by discriminate.
  now constructor.
Qed.

Lemma Forall_tl_app {A} (P : A -> Prop) p x t :
  Forall P (tl (p ++ x :: t)) -> Forall P t.
Proof.
  destruct p as [|y p]; [exact (fun H => H)|]. simpl. intros H.
  apply Forall_app in H. destruct H as [_ H]. now inversion H.
Qed.

(** ** Lines that hold an [ORDER BY] are kept *)

Lemma rstrip_app_nonspace p c q :
  is_space c = false -> rstrip (p ++ c :: q) = p ++ c :: rstrip q.
Proof.
  intros Hc. unfold rstrip. rewrite rev_app_distr. simpl rev.
  rewrite <- app_assoc. simpl app.
  rewrite lstrip_app_nonspace by assumption.
  rewrite rev_app_distr. simpl rev. rewrite rev_involutive, <- app_assoc. reflexivity.
Qed.

Lemma bad_line_run_gap q p x sp y t :
  is_word x = true -> is_space sp = true -> is_word y = true ->
  bad_line_run q (p ++ x :: sp :: y :: t) = false.
Proof.
  intros Hx Hsp Hy.
  pose proof (space_not_word sp Hsp) as Hspw.
  pose proof (space_not_comma sp Hsp) as Hspc.
  pose proof (word_not_space y Hy) as Hys.
  pose proof (word_not_space x Hx) as Hxs.
  revert q. induction p as [|c p IH]; intros q.
  - destruct q; simpl; rewrite ?Hx, ?Hxs, ?Hspw, ?Hspc, ?Hsp, ?Hys; reflexivity.
  - destruct q; simpl; rewrite ?IH;
      repeat match goal with
        | |- context [if ?b then _ else _] => destruct b
        end; rewrite ?andb_false_r; reflexivity.
Qed.

Lemma keep_line_orderby u v : keep_line (u ++ ORDER_BY ++ v) = true.
Proof.
  unfold keep_line. apply orb_true_iff. right. apply negb_true_iff.
  change ORDER_BY with (79 :: of_string "RDER B" ++ [89])%N.
  rewrite <- app_comm_cons, <- app_assoc. unfold strip.
  rewrite lstrip_app_nonspace by reflexivity.
  change (79%N :: of_string "RDER B" ++ [89%N] ++ v)
    with ((79%N :: of_string "RDER B") ++ 89%N :: v).
  rewrite app_assoc, rstrip_app_nonspace by reflexivity.
  unfold bad_line_match.
  change (79 :: of_string "RDER B")%N with (of_string "ORDE" ++ [82; 32; 66])%N.
  rewrite app_assoc, <- app_assoc. simpl ([82; 32; 66]%N ++ _).
  now apply bad_line_run_gap.
Qed.

(** ** Kept lines stay kept *)

Lemma keep_line_pad wa l wb :
  all_space wa -> all_space wb -> keep_line (wa ++ l ++ wb) = keep_line l.
Proof.
  intros Ha Hb. unfold keep_line, is_sql_line. now rewrite strip_pad.
Qed.

Lemma all_kept_replace a m r b :
  count chr_lf r = 0 ->
  (forall u v, keep_line (u ++ r ++ v) = true) ->
  all_kept (a ++ m ++ b) -> all_kept (a ++ r ++ b).
Proof.
  intros Hr Hk. unfold all_kept.
  rewrite (split_app chr_lf a (m ++ b)), (split_app chr_lf m b).
  rewrite (split_app chr_lf a (r ++ b)), (split_app chr_lf r b).
  rewrite (split_no_sep chr_lf r Hr). cbn [removelast last app hd tl].
  intros H. apply Forall_app in H. destruct H as [Ha H].
  inversion H as [|? ? _ Ht]; subst.
  apply Forall_app. split; [exact Ha|].
  constructor; [apply Hk|exact (Forall_tl_app _ _ _ _ Ht)].
Qed.

Lemma all_kept_collapse s :
  forall pre, all_kept (pre ++ s) -> all_kept (pre ++ collapse_order_by s).
Proof.
  revert s. apply (collapse_ind (fun s out =>
    forall pre, all_kept (pre ++ s) -> all_kept (pre ++ out))).
  - auto.
  - intros c r _ IH pre H.
    change (pre ++ c :: collapse_order_by r)
      with (pre ++ [c] ++ collapse_order_by r).
    rewrite app_assoc. apply IH. now rewrite <- app_assoc.
  - intros o1 w o2 rest _ _ _ _ IH pre H.
    rewrite app_assoc. apply IH. rewrite <- app_assoc.
    apply (all_kept_replace pre (o1 ++ w ++ o2)).
    + reflexivity.
    + apply keep_line_orderby.
    + now rewrite <- !app_assoc.
Qed.

Lemma all_space_split_last w : all_space w -> all_space (last (split chr_lf w) []).
Proof.
  intros H. apply (Forall_last (Forall _)); [now apply split_Forall|constructor].
Qed.

Lemma all_space_split_hd w : all_space w -> all_space (hd [] (split chr_lf w)).
Proof.
  intros H. apply (Forall_hd (Forall _)); [now apply split_Forall|constructor].
Qed.

Lemma all_kept_pad_left w s : all_space w -> all_kept (w ++ s) -> all_kept s.
Proof.
  intros Hw. unfold all_kept. rewrite split_app, (split_hd_tl chr_lf s) at 1.
  intros H. apply Forall_app in H. destruct H as [_ H].
  inversion H as [|? ? Hk Ht]; subst. rewrite (split_hd_tl chr_lf s).
  constructor; [|exact Ht].
  rewrite <- Hk. symmetry.
  rewrite <- (app_nil_r (hd [] (split chr_lf s))) at 1.
  apply keep_line_pad; [now apply all_space_split_last|constructor].
Qed.

Lemma all_kept_pad_right s w : all_space w -> all_kept (s ++ w) -> all_kept s.
Proof.
  intros Hw. unfold all_kept. rewrite split_app.
  intros H. apply Forall_app in H. destruct H as [Hi H].
  inversion H as [|? ? Hk _]; subst.
  rewrite (app_removelast_last [] (split_not_nil chr_lf s)).
  apply Forall_app. split; [exact Hi|]. constructor; [|constructor].
  rewrite <- Hk. symmetry.
  change (last (split chr_lf s) [] ++ hd [] (split chr_lf w))
    with ([] ++ last (split chr_lf s) [] ++ hd [] (split chr_lf w)).
  apply keep_line_pad; [constructor|now apply all_space_split_hd].
Qed.

Lemma all_kept_strip s : all_kept s -> all_kept (strip s).
Proof.
  intros H. destruct (strip_decomp s) as (w1 & w2 & E & H1 & H2).
  rewrite E in H. apply all_kept_pad_left in H; [|assumption].
  now apply all_kept_pad_right in H.
Qed.

Lemma splitlines_no_break s :
  Forall (Forall (fun c => is_linebreak c = false)) (splitlines s).
Proof.
  revert s. apply (splitlines_ind (fun s lines =>
    Forall (Forall (fun c => is_linebreak c = false)) lines)).
  - constructor.
  - intros c r Hc IH. destruct (splitlines r) as [|l ls].
    + repeat constructor. assumption.
    + inversion IH; subst. constructor; [now constructor|assumption].
  - intros c r _ IH. constructor; [constructor|exact IH].
  - intros r IH. constructor; [constructor|exact IH].
Qed.

Lemma no_break_no_lf l :
  Forall (fun c => is_linebreak c = false) l -> count chr_lf l = 0.
Proof.
  induction 1 as [|c l Hc _ IH]; [reflexivity|].
  rewrite count_cons, IH.
  destruct (N.eqb_spec chr_lf c) as [<-|_]; [discriminate Hc|reflexivity].
Qed.

Lemma filter_Forall {A} (p : A -> Prop) (f : A -> bool) l :
  Forall p l -> Forall p (filter f l).
Proof.
  induction 1 as [|x l Hx _ IH]; [constructor|]. simpl.
  destruct (f x); [now constructor|exact IH].
Qed.

Lemma filter_keeps {A} (f : A -> bool) l : Forall (fun x => f x = true) (filter f l).
Proof.
  induction l as [|x l IH]; [constructor|]. simpl.
  destruct (f x) eqn:E; [now constructor|exact IH].
Qed.

Lemma filter_all {A} (f : A -> bool) l :
  Forall (fun x => f x = true) l -> filter f l = l.
Proof.
  induction 1 as [|x l Hx _ IH]; [reflexivity|]. simpl. now rewrite Hx, IH.
Qed.

Lemma all_kept_lines s :
  all_kept (join [chr_lf] (filter keep_line (splitlines s))).
Proof.
  unfold all_kept.
  destruct (filter keep_line (splitlines s)) as [|l ls] eqn:E.
  - simpl. repeat constructor.
  - rewrite split_join.
    + rewrite <- E. apply filter_keeps.
    + discriminate.
    + rewrite <- E. apply filter_Forall.
      eapply Forall_impl; [|apply splitlines_no_break].
      intros l0. apply no_break_no_lf.
Qed.

(** ** Newlines as the only line boundaries *)

Lemma nl_only_join ls :
  Forall (Forall (fun c => is_linebreak c = false)) ls ->
  nl_only (join [chr_lf] ls).
Proof.
  induction 1 as [|l ls Hl Hls IH]; [constructor|].
  assert (Hn : nl_only l).
  { eapply Forall_impl; [|exact Hl]. intros c Hc Hb. congruence. }
  destruct ls as [|l' ls]; [exact Hn|].
  rewrite join_cons. apply Forall_app. split; [exact Hn|].
  constructor; [reflexivity|exact IH].
Qed.

Lemma collapse_Forall (P : char -> Prop) s :
  Forall P ORDER_BY -> Forall P s -> Forall P (collapse_order_by s).
Proof.
  intros Ho. revert s.
  apply (collapse_ind (fun s out => Forall P s -> Forall P out)).
  - auto.
  - intros c r _ IH H. inversion H; subst. constructor; auto.
  - intros o1 w o2 rest _ _ _ _ IH H.
    rewrite !app_assoc in H. apply Forall_app in H. destruct H as [_ H].
    apply Forall_app. split; auto.
Qed.

Lemma strip_Forall (P : char -> Prop) s : Forall P s -> Forall P (strip s).
Proof.
  intros H. destruct (strip_decomp s) as (w1 & w2 & E & _).
  rewrite E in H. apply Forall_app in H. destruct H as [_ H].
  apply Forall_app in H. now destruct H.
Qed.

Lemma splitlines_split s :
  nl_only s -> s <> [] -> (forall p, s <> p ++ [chr_lf]) ->
  splitlines s = split chr_lf s.
Proof.
  intros H. induction H as [|c s Hc Hs IH]; [congruence|]. intros _ Hlast.
  destruct (N.eq_dec c chr_lf) as [->|Hn].
  - rewrite split_cons_sep.
    destruct s as [|d s]; [exfalso; now apply (Hlast [])|].
    rewrite splitlines_break; [|reflexivity|discriminate].
    rewrite IH; [reflexivity|discriminate|].
    intros p E. apply (Hlast (chr_lf :: p)). simpl. congruence.
  - assert (Hb : is_linebreak c = false).
    { destruct (is_linebreak c) eqn:E; [|reflexivity]. now elim Hn; apply Hc. }
    rewrite splitlines_char, split_cons_other by assumption.
    destruct s as [|d s]; [reflexivity|].
    rewrite IH; [|discriminate|].
    + destruct (split_cons chr_lf (d :: s)) as (l & ls & ->). reflexivity.
    + intros p E. apply (Hlast (c :: p)). simpl. congruence.
Qed.

Lemma strip_last s p c : strip s = p ++ [c] -> is_space c = false.
Proof.
  unfold strip, rstrip. intros H.
  apply (f_equal (@rev _)) in H. rewrite rev_involutive, rev_app_distr in H.
  simpl in H. pose proof (lstrip_head (rev (lstrip s))) as Hh.
  now rewrite H in Hh.
Qed.

(** ** A second pass of [clean_sql] *)

Lemma strip_clean_sql x : strip (clean_sql x) = clean_sql x.
Proof. rewrite clean_sql_steps. apply strip_idem. Qed.

Lemma truncate_clean_sql x : truncate (clean_sql x) = clean_sql x.
Proof.
  destruct (contains chr_semi (strip_fences x)) eqn:E.
  - destruct (clean_sql_semi_present x E) as (p & -> & Hp).
    unfold truncate. rewrite contains_app. cbn [contains existsb].
    rewrite N.eqb_refl, orb_true_r. cbn [orb].
    now rewrite split_head_no_sep.
  - apply truncate_no_semi, contains_count. now apply clean_sql_semi_absent.
Qed.

Lemma nl_only_ORDER_BY : nl_only ORDER_BY.
Proof. repeat constructor; discriminate. Qed.

Lemma clean_sql_nl_only x : nl_only (clean_sql x).
Proof.
  rewrite clean_sql_steps.
  apply strip_Forall, collapse_Forall; [exact nl_only_ORDER_BY|].
  apply nl_only_join, filter_Forall, splitlines_no_break.
Qed.

Lemma clean_sql_all_kept x : all_kept (clean_sql x).
Proof.
  rewrite clean_sql_steps. apply all_kept_strip.
  apply (all_kept_collapse _ []). apply all_kept_lines.
Qed.

Lemma clean_sql_lines x :
  join [chr_lf] (filter keep_line (splitlines (clean_sql x))) = clean_sql x.
Proof.
  destruct (clean_sql x) as [|c y] eqn:E; [reflexivity|].
  rewrite <- E. rewrite splitlines_split.
  - rewrite filter_all by apply clean_sql_all_kept. apply join_split.
  - apply clean_sql_nl_only.
  - rewrite E. discriminate.
  - intros p Hp. rewrite <- strip_clean_sql in Hp.
    apply strip_last in Hp. discriminate Hp.
Qed.

(** The second pass does the last two steps only. *)
Lemma clean_sql_twice x :
  clean_sql (clean_sql x) = strip (collapse_order_by (clean_sql x)).
Proof.
  rewrite (clean_sql_steps (clean_sql x)).
  now rewrite clean_sql_fences, truncate_clean_sql, strip_clean_sql, clean_sql_lines.
Qed.

Lemma occurs_cons m c r :
  occurs m (c :: r) =
  match m (c :: r) with Some (S _) => true | _ => occurs m r end.
Proof. reflexivity. Qed.

Lemma collapse_no_match s :
  occurs orderby_match s = false -> collapse_order_by s = s.
Proof.
  unfold collapse_order_by. revert s.
  apply (re_sub_ind orderby_match ORDER_BY
           (fun s out => occurs orderby_match s = false -> out = s)).
  - reflexivity.
  - intros c r Hm IH H. rewrite occurs_cons in H. f_equal. apply IH.
    destruct (orderby_match (c :: r)) as [[|k]|]; [exact H|discriminate|exact H].
  - intros c r k Hm _ H. rewrite occurs_cons, Hm in H. discriminate.
Qed.

Lemma collapse_match_shorter s :
  occurs orderby_match s = true -> length (collapse_order_by s) < length s.
Proof.
  unfold collapse_order_by at 1. revert s.
  apply (re_sub_ind orderby_match ORDER_BY
           (fun s out => occurs orderby_match s = true -> length out < length s)).
  - discriminate.
  - intros c r Hm IH H. rewrite occurs_cons in H. simpl. apply -> Nat.succ_lt_mono.
    apply IH. destruct (orderby_match (c :: r)) as [[|k]|];
      [exact H|now elim (Hm k)|exact H].
  - intros c r k Hm _ _.
    destruct (orderby_match_inv _ _ Hm) as (o1 & w & o2 & rest & E & Hn & H1 & H2 & Hw & Hne).
    assert (Hr : skipn k r = rest).
    { change (skipn k r) with (skipn (S k) (c :: r)).
      rewrite E, Hn, !app_assoc. rewrite <- (app_assoc o1 w o2).
      apply skipn_length_app. }
    rewrite Hr, E. pose proof (length_collapse rest) as Hl.
    unfold collapse_order_by in Hl.
    rewrite !length_app, (is_orderby_length _ H1), (is_orderby_length _ H2).
    change (length ORDER_BY) with 8. lia.
Qed.

(** ** Where the fence pattern matches *)

Lemma occurs_fence_count s :
  occurs fence_match s = true -> 2 <= fence_count 0 s.
Proof.
  induction s as [|c r IH]; [discriminate|]. rewrite occurs_cons.
  destruct (fence_match (c :: r)) as [[|k]|] eqn:E.
  - intros H. pose proof (fence_count_suffix [c] r 0). specialize (IH H).
    simpl app in *. lia.
  - intros _. apply (fence_match_count 0 _ _ E).
  - intros H. pose proof (fence_count_suffix [c] r 0). specialize (IH H).
    simpl app in *. lia.
Qed.

Lemma strip_fences_no_match s :
  occurs fence_match s = false -> strip_fences s = s.
Proof.
  unfold strip_fences. revert s.
  apply (re_sub_ind fence_match []
           (fun s out => occurs fence_match s = false -> out = s)).
  - reflexivity.
  - intros c r Hm IH H. rewrite occurs_cons in H. f_equal. apply IH.
    destruct (fence_match (c :: r)) as [[|k]|]; [exact H|discriminate|exact H].
  - intros c r k Hm _ H. rewrite occurs_cons, Hm in H. discriminate.
Qed.

Lemma occurs_fence_iff s :
  occurs fence_match s = false <-> fence_count 0 s <= 1.
Proof.
  split.
  - intros H. rewrite <- (strip_fences_no_match s H). apply strip_fences_count.
  - intros H. destruct (occurs fence_match s) eqn:E; [|reflexivity].
    apply occurs_fence_count in E. lia.
Qed.

(** ** No step adds a character *)

Lemma count_strip_fences c s : count c (strip_fences s) <= count c s.
Proof.
  revert s. apply (strip_fences_ind (fun s out => count c out <= count c s)).
  - reflexivity.
  - intros d r _ IH. rewrite !count_cons. lia.
  - intros b rest _ IH. rewrite !count_app. lia.
Qed.

Lemma count_truncate c s : count c (truncate s) <= count c s.
Proof.
  unfold truncate. destruct (contains chr_semi s) eqn:E; [|reflexivity].
  destruct (split_head_decomp _ _ E) as [rest Hs].
  rewrite Hs at 2. rewrite !count_app, !count_cons, count_nil. lia.
Qed.

Lemma count_strip_le c s : count c (strip s) <= count c s.
Proof.
  destruct (strip_decomp s) as (w1 & w2 & E & _).
  rewrite E at 2. rewrite !count_app. lia.
Qed.

Lemma nl_only_count c s :
  nl_only s -> is_linebreak c = true -> c <> chr_lf -> count c s = 0.
Proof.
  intros H Hb Hc. induction H as [|d s Hd _ IH]; [reflexivity|].
  rewrite count_cons, IH. destruct (N.eqb_spec c d) as [<-|_]; [|reflexivity].
  now elim Hc; apply Hd.
Qed.

(** ** White space only *)

Lemma all_space_strip w : all_space w -> strip w = [].
Proof.
  intros H. unfold strip. now rewrite all_space_lstrip_nil.
Qed.

Lemma clean_sql_all_space w : all_space w -> clean_sql w = [].
Proof.
  intros H. rewrite clean_sql_steps.
  rewrite strip_fences_no_backtick by (now apply count_all_space).
  rewrite truncate_no_semi
    by (apply contains_count; now apply count_all_space).
  rewrite (all_space_strip w) by assumption. reflexivity.
Qed.

Lemma all_space_no_fence w :
  all_space w -> find fence (w ++ [chr_backtick; chr_backtick]) = None.
Proof.
  induction 1 as [|c w Hc _ IH]; [reflexivity|].
  rewrite <- app_comm_cons, find_cons, IH.
  replace (startswith fence (c :: w ++ [chr_backtick; chr_backtick])) with false;
    [reflexivity|].
  unfold fence. rewrite startswith_cons.
  destruct (N.eqb_spec chr_backtick c) as [<-|_]; [discriminate Hc|reflexivity].
Qed.

(** ** Repeated passes *)

Lemma clean_sql_pass_again x :
  clean_sql (clean_sql x) = clean_sql x \/
  length (clean_sql (clean_sql x)) < length (clean_sql x).
Proof.
  rewrite clean_sql_twice.
  destruct (occurs orderby_match (clean_sql x)) eqn:E.
  - right. apply collapse_match_shorter in E.
    pose proof (length_strip (collapse_order_by (clean_sql x))). lia.
  - left. rewrite (collapse_no_match _ E). apply strip_clean_sql.
Qed.

Lemma clean_sql_settles_within m :
  forall x, length (clean_sql x) <= m ->
  exists n, n <= m /\
    clean_sql (Nat.iter n clean_sql (clean_sql x)) = Nat.iter n clean_sql (clean_sql x).
Proof.
  induction m as [|m IH]; intros x Hm.
  - exists 0. split; [lia|]. simpl.
    destruct (clean_sql x) eqn:E; [reflexivity|simpl in Hm; lia].
  - destruct (clean_sql_pass_again x) as [Hfix|Hlt].
    + exists 0. split; [lia|exact Hfix].
    + destruct (IH (clean_sql x)) as (n & Hn & Hfix); [lia|].
      exists (S n). split; [lia|].
      rewrite !Nat.iter_succ_r. exact Hfix.
Qed.

(** ** The lines of an output *)

Lemma clean_sql_lines_kept x :
  Forall (fun l => keep_line l = true) (splitlines (clean_sql x)).
Proof.
  destruct (clean_sql x) as [|c y] eqn:E; [constructor|].
  rewrite <- E. rewrite splitlines_split.
  - apply clean_sql_all_kept.
  - apply clean_sql_nl_only.
  - rewrite E. discriminate.
  - intros p Hp. rewrite <- strip_clean_sql in Hp.
    apply strip_last in Hp. discriminate Hp.
Qed.

Lemma space_bad_char c : is_space c = true -> bad_char c = true.
Proof. intros H. unfold bad_char. rewrite H. apply orb_true_r. Qed.

Lemma dropped_line_shape line :
  keep_line line = false ->
  is_sql_line line = false /\
  Forall (fun c => bad_char c = true) line /\
  exists c, In c line /\ is_word c = true.
Proof.
  unfold keep_line. intros H. apply orb_false_iff in H. destruct H as [Hs Hb].
  apply negb_false_iff in Hb. split; [exact Hs|].
  destruct (strip_decomp line) as (w1 & w2 & E & H1 & H2).
  split.
  - rewrite E. apply Forall_app. split.
    + eapply Forall_impl; [|exact H1]. apply space_bad_char.
    + apply Forall_app. split; [now apply bad_line_run_chars in Hb|].
      eapply Forall_impl; [|exact H2]. apply space_bad_char.
  - unfold bad_line_match in Hb. destruct (strip line) as [|c t]; [discriminate|].
    simpl in Hb. apply andb_true_iff in Hb. destruct Hb as [Hc _].
    exists c. split; [|exact Hc].
    rewrite E. apply in_or_app. right. now left.
Qed.

(** ** Lines joined and split again *)

Lemma splitlines_line l t :
  Forall (fun c => is_linebreak c = false) l ->
  splitlines (l ++ chr_lf :: t) = l :: splitlines t.
Proof.
  induction 1 as [|c l Hc _ IH].
  - simpl app. apply splitlines_break; [reflexivity|discriminate].
  - rewrite <- app_comm_cons, splitlines_char, IH by assumption. reflexivity.
Qed.

Lemma splitlines_join ls :
  Forall (fun l => Forall (fun c => is_linebreak c = false) l /\ l <> []) ls ->
  splitlines (join [chr_lf] ls) = ls.
Proof.
  induction 1 as [|l ls [Hl Hne] _ IH]; [reflexivity|].
  destruct ls as [|l' ls]; [now apply splitlines_one_line|].
  rewrite join_cons. change ([chr_lf] ++ join [chr_lf] (l' :: ls))
    with (chr_lf :: join [chr_lf] (l' :: ls)).
  now rewrite splitlines_line, IH.
Qed.

Lemma split_head_word sep a b :
  count sep a = 0 -> hd [] (split sep (a ++ [sep] ++ b)) = a.
Proof. intros H. simpl app. now apply split_head_no_sep. Qed.

Lemma schema_text_lines rows :
  Forall plain_row rows ->
  splitlines (schema_text_of rows) =
  map (fun row => fst row ++ [32%N] ++ snd row) rows.
Proof.
  intros H. unfold schema_text_of. apply splitlines_join.
  apply Forall_map. eapply Forall_impl; [|exact H].
  intros [col dtype] [Hc Hd]. simpl in *. split.
  - apply Forall_app. split.
    + eapply Forall_impl; [|exact Hc]. now intros c [Hb _].
    + constructor; [reflexivity|exact Hd].
  - intros E. apply app_eq_nil in E. destruct E as [_ E]. discriminate.
Qed.

(** ** The pipeline and the page *)

Lemma clean_sql_single_semi x :
  count chr_semi (clean_sql x) <= 1 /\
  (forall a b, clean_sql x = a ++ chr_semi :: b -> b = []).
Proof.
  destruct (contains chr_semi (strip_fences x)) eqn:E.
  - destruct (clean_sql_semi_present x E) as (p & -> & Hp). split.
    + rewrite count_app, Hp. reflexivity.
    + intros a b Hab. destruct b as [|z b]; [reflexivity|exfalso].
      destruct (exists_last (l := z :: b)) as (b' & y & Eb); [discriminate|].
      rewrite Eb in Hab.
      change (a ++ chr_semi :: b' ++ [y]) with (a ++ (chr_semi :: b') ++ [y]) in Hab.
      rewrite app_assoc in Hab. apply app_inj_tail in Hab. destruct Hab as [-> _].
      rewrite count_app, count_cons, N.eqb_refl in Hp. lia.
  - pose proof (clean_sql_semi_absent x E) as H0. split; [lia|].
    intros a b Hab. rewrite Hab, count_app, count_cons, N.eqb_refl in H0. lia.
Qed.

Lemma make_sql_cleaned service schema_text question sql :
  make_sql service schema_text question = Ok sql -> cleaned sql.
Proof.
  unfold make_sql, build_sql_from_plan, bind.
  destruct (make_sql_plan service schema_text question) as [plan|e]; [|discriminate].
  destruct (service _) as [raw|e]; [|discriminate].
  intros H. injection H as <-. now exists raw.
Qed.

Lemma run_sql_on_cleaned {Conn Row} (db1 db2 : duckdb_api Conn Row) sql :
  connect db1 (of_string "cars.duckdb") = connect db2 (of_string "cars.duckdb") ->
  (forall conn s, cleaned s -> execute_fetchall db1 conn s = execute_fetchall db2 conn s) ->
  cleaned sql -> run_sql db1 sql = run_sql db2 sql.
Proof.
  intros Hc He Hs. unfold run_sql. rewrite Hc.
  destruct (connect db2 (of_string "cars.duckdb")); [|reflexivity].
  simpl. now apply He.
Qed.

(** The script, outcome by outcome. *)
Lemma app_script_cases {Conn Row} service (duckdb : duckdb_api Conn Row)
    schema_text str_of_rows question run_button :
  app_script service duckdb schema_text str_of_rows question run_button =
  if run_button && negb (length (strip question) =? 0) then
    match make_sql service schema_text question with
    | Raise e => (app_header, Raise e)
    | Ok sql =>
        match run_sql duckdb sql with
        | Raise e => (app_header ++ sql_widgets sql, Raise e)
        | Ok rows =>
            match make_insight service str_of_rows question rows with
            | Raise e =>
                (app_header ++ sql_widgets sql ++ result_widgets rows, Raise e)
            | Ok insight =>
                (app_header ++ sql_widgets sql ++ result_widgets rows
                 ++ insight_widgets insight, Ok tt)
            end
        end
    end
  else (app_header, Ok tt).
Proof.
  unfold app_script.
  destruct (run_button && negb (length (strip question) =? 0)); [|reflexivity].
  destruct (make_sql service schema_text question) as [sql|e]; [|reflexivity].
  cbn [page_bind show call List.app].
  destruct (run_sql duckdb sql) as [rows|e]; [|reflexivity].
  destruct (make_insight service str_of_rows question rows) as [insight|e];
    reflexivity.
Qed.

(** * The claims of the specification *)

(** C1, as stated, fails: Scenario 2 does not sanitize to the statement
    inside the fences. *)
Lemma C1_scenario2_counterexample :
  clean_sql scenario2 <> of_string "SELECT a FROM cars;".
Proof. vm_compute. discriminate. Qed.

(** C1, amended: a fenced block goes as a whole.  When the first fence of
    the input starts after [a] and the next fence after it starts after
    [b], the input sanitizes like the input without the block: neither the
    two fences nor the text [b] between them are kept.  In particular
    Scenario 2, one fenced block, sanitizes to the empty string. *)
Theorem C1_fenced_block_removed :
  (forall a b c,
     find fence (a ++ [chr_backtick; chr_backtick]) = None ->
     find fence (b ++ [chr_backtick; chr_backtick]) = None ->
     clean_sql (a ++ fence ++ b ++ fence ++ c) = clean_sql (a ++ c))
  /\ clean_sql scenario2 = [].
Proof.
  split; [|reflexivity].
  intros a b c Ha Hb. apply clean_sql_by_fences.
  rewrite (strip_fences_prefix a c), (strip_fences_prefix a (fence ++ _)) by assumption.
  now rewrite strip_fences_block.
Qed.

Lemma C1_fenced_block_removed_witness :
  clean_sql (of_string "SELECT a" ++ fence ++ of_string "sql FROM cars;" ++ fence
             ++ of_string " FROM t;")
  = clean_sql (of_string "SELECT a" ++ of_string " FROM t;").
Proof.
  apply (proj1 C1_fenced_block_removed); reflexivity.
Defined.

(** C2, as stated, fails: one pass takes one [ORDER BY] out of three in a
    row, a second pass takes another. *)
Lemma C2_triple_order_by_counterexample :
  clean_sql (clean_sql (of_string "SELECT a FROM cars ORDER BY ORDER BY ORDER BY a;"))
  <> clean_sql (of_string "SELECT a FROM cars ORDER BY ORDER BY ORDER BY a;").
Proof. vm_compute. discriminate. Qed.

(** C2, amended: a second pass changes the output of the first exactly when
    that output still holds a doubled [ORDER BY] (the pattern
    [ORDER BY\s+ORDER BY], in any case); for every other input [x],
    [clean_sql (clean_sql x) = clean_sql x]. *)
Theorem C2_idempotent_unless_order_by_left x :
  clean_sql (clean_sql x) = clean_sql x <->
  occurs orderby_match (clean_sql x) = false.
Proof.
  rewrite clean_sql_twice. split.
  - intros H. destruct (occurs orderby_match (clean_sql x)) eqn:E; [|reflexivity].
    apply collapse_match_shorter in E.
    pose proof (length_strip (collapse_order_by (clean_sql x))) as Hl.
    rewrite H in Hl. lia.
  - intros H. rewrite (collapse_no_match _ H). apply strip_clean_sql.
Qed.

Lemma C2_idempotent_unless_order_by_left_witness :
  clean_sql (clean_sql (of_string "SELECT a FROM cars ORDER BY ORDER BY a;"))
  = clean_sql (of_string "SELECT a FROM cars ORDER BY ORDER BY a;").
Proof.
  apply (proj2 (C2_idempotent_unless_order_by_left
                  (of_string "SELECT a FROM cars ORDER BY ORDER BY a;"))).
  reflexivity.
Defined.

(** C3: the output of [clean_sql] holds at most one [;], and nothing comes
    after a [;] in it. *)
Theorem C3_single_statement x :
  count chr_semi (clean_sql x) <= 1 /\
  (forall a b, clean_sql x = a ++ chr_semi :: b -> b = []).
Proof.
  destruct (contains chr_semi (strip_fences x)) eqn:E.
  - destruct (clean_sql_semi_present x E) as (p & -> & Hp). split.
    + rewrite count_app, Hp. reflexivity.
    + intros a b Hab. destruct b as [|z b]; [reflexivity|exfalso].
      destruct (exists_last (l := z :: b)) as (b' & y & Eb); [discriminate|].
      rewrite Eb in Hab.
      change (a ++ chr_semi :: b' ++ [y]) with (a ++ (chr_semi :: b') ++ [y]) in Hab.
      rewrite app_assoc in Hab. apply app_inj_tail in Hab. destruct Hab as [-> _].
      rewrite count_app, count_cons, N.eqb_refl in Hp. lia.
  - pose proof (clean_sql_semi_absent x E) as H0. split; [lia|].
    intros a b Hab. rewrite Hab, count_app, count_cons, N.eqb_refl in H0. lia.
Qed.

(** C4, as stated, fails: a completion service that answers the plan prompt
    with a well-formed plan naming a column outside the schema and a brand
    the question does not hold gets that plan through. *)
Lemma C4_stray_plan_counterexample :
  ~ plan_invariants stray_service small_schema city_question.
Proof.
  intros H. destruct (H stray_plan) as [Hcols _].
  - reflexivity.
  - repeat split; discriminate.
  - vm_compute in Hcols. inversion Hcols as [|? ? _ Hrest]. subst.
    inversion Hrest as [|? ? Hin _]. subst.
    repeat (destruct Hin as [Hin|Hin]; [discriminate Hin|]). exact Hin.
Qed.

(** C4, amended: [make_sql] has no stage that validates a plan.  The plan is
    the answer of the completion service to the plan prompt; it is put
    unchanged into the prompt of the SQL builder, and the answer to that,
    cleaned by [clean_sql], is the result.  An exception of the service at
    either call is the outcome of [make_sql].  So a plan has the whitelist
    and literal-grounding properties only when the service kept to the
    rules of the prompt. *)
Theorem C4_plan_passed_through service schema_text question :
  match make_sql_plan service schema_text question with
  | Raise e => make_sql service schema_text question = Raise e
  | Ok plan =>
      (exists head tail, req_prompt (sql_request plan) = head ++ plan ++ tail) /\
      match service (sql_request plan) with
      | Raise e => make_sql service schema_text question = Raise e
      | Ok raw => make_sql service schema_text question = Ok (clean_sql raw)
      end
  end.
Proof.
  unfold make_sql.
  destruct (make_sql_plan service schema_text question) as [plan|e]; [|reflexivity].
  split.
  - exact (SQL_BUILDER_PROMPT_holds_plan plan).
  - unfold build_sql_from_plan, sql_request, bind.
    destruct (service _); reflexivity.
Qed.

(** C5, as stated, fails: an input without [;] is returned without one. *)
Lemma C5_no_terminator_counterexample :
  ~ exists p, clean_sql (of_string "SELECT a FROM cars") = p ++ [chr_semi].
Proof.
  intros [p H]. apply (f_equal (count chr_semi)) in H.
  rewrite count_app in H. vm_compute count at 1 in H.
  change (count chr_semi [chr_semi]) with 1 in H. lia.
Qed.

(** C5, amended: the output ends in a [;], its only one, exactly when the
    text left by the removal of the fenced blocks holds a [;]; otherwise no
    [;] is appended and the output holds none. *)
Theorem C5_terminator_iff_present x :
  if contains chr_semi (strip_fences x)
  then exists p, clean_sql x = p ++ [chr_semi] /\ contains chr_semi p = false
  else contains chr_semi (clean_sql x) = false.
Proof.
  destruct (contains chr_semi (strip_fences x)) eqn:E.
  - destruct (clean_sql_semi_present x E) as (p & Hx & Hp).
    exists p. split; [exact Hx|]. now apply contains_count.
  - apply contains_count. now apply clean_sql_semi_absent.
Qed.

(** C6: the loop over the lines is the filter of the specification.  A line
    whose content (the line without the white space around it) starts, in
    any case, with one of [select], [from], [where], [group], [order],
    [limit] is kept; a line whose content is a bare comma-separated list of
    identifiers, and that is no such SQL line, is dropped; every other line
    is kept; the lines kept are joined in the order they came in. *)
Theorem C6_line_filter :
  (forall lines, fold_left filter_step lines [] = filter spec_keeps lines) /\
  (forall line,
     spec_keeps line = false <->
     spec_sql_line line = false /\ bare_list (strip line)) /\
  (forall line,
     spec_sql_line line = true <->
     exists kw,
       In kw [ of_string "select"; of_string "from"; of_string "where";
               of_string "group"; of_string "order"; of_string "limit" ] /\
       startswith_ci kw (strip line) = true) /\
  (forall sql,
     clean_sql sql =
     strip (collapse_order_by (join [chr_lf]
       (filter spec_keeps (splitlines (strip (truncate (strip_fences sql)))))))).
Proof.
  assert (Hf : forall ls, filter keep_line ls = filter spec_keeps ls).
  { intros ls. apply filter_ext. intros l. apply keep_line_spec. }
  split; [|split; [|split]].
  - intros lines. rewrite fold_filter_step. apply Hf.
  - intros line. unfold spec_keeps, spec_classify.
    rewrite <- bad_line_match_bare_list.
    destruct (spec_sql_line line); [split; [discriminate|intros [H _]; discriminate]|].
    destruct (bad_line_match (strip line));
      [tauto|split; [discriminate|intros [_ H]; discriminate]].
  - intros line. unfold spec_sql_line. rewrite existsb_exists. reflexivity.
  - intros sql. rewrite clean_sql_steps. now rewrite Hf.
Qed.

(** Each of the six keywords, alone on a line and in some case, is kept
    though it is a lone identifier; [selec] and a list of names go. *)
Lemma C6_line_filter_witness :
  fold_left filter_step
    [ of_string "select"; of_string "a, b"; of_string "  FROM  ";
      of_string "Where"; of_string "selec"; of_string "group";
      of_string "city, total"; of_string "ORDER"; of_string "a b";
      of_string "Limit"; of_string "COUNT(*)" ] []
  = [ of_string "select"; of_string "  FROM  "; of_string "Where";
      of_string "group"; of_string "ORDER"; of_string "a b";
      of_string "Limit"; of_string "COUNT(*)" ].
Proof.
  rewrite (proj1 C6_line_filter). reflexivity.
Defined.

(** C7: there is no input on which [clean_sql] raises: with the index into
    the result of [split] kept as an operation that can raise, every input
    still gets its output.  The empty input gives the empty string. *)
Theorem C7_total :
  (forall x, clean_sql_exn x = Ok (clean_sql x)) /\ clean_sql [] = [].
Proof.
  split; [|reflexivity].
  intros x. unfold clean_sql_exn, clean_sql.
  destruct (contains chr_semi (re_sub fence_match [] x)); [|reflexivity].
  destruct (split_cons chr_semi (re_sub fence_match [] x)) as (l & ls & ->).
  reflexivity.
Qed.

(** C8: [run_sql] hands on what the store does.  When the store runs the
    statement and finds no row, [run_sql] returns the empty list of rows,
    which is no exception, and [app.py] shows it as a warning, not as a
    table.  When the store refuses the statement, or cannot be opened,
    [run_sql] raises the store's exception and returns no list.  So a list
    of rows, the empty one too, comes back only when the store returned
    it. *)
Theorem C8_empty_result_set {Conn Row} (duckdb : duckdb_api Conn Row) sql :
  (forall conn,
     connect duckdb (of_string "cars.duckdb") = Ok conn ->
     execute_fetchall duckdb conn sql = Ok [] ->
     run_sql duckdb sql = Ok [] /\
     (forall e, run_sql duckdb sql <> Raise e) /\
     show_results (@nil Row) = Warning (of_string "No rows returned from database.")) /\
  (forall conn e,
     connect duckdb (of_string "cars.duckdb") = Ok conn ->
     execute_fetchall duckdb conn sql = Raise e ->
     run_sql duckdb sql = Raise e /\ run_sql duckdb sql <> Ok []) /\
  (forall e,
     connect duckdb (of_string "cars.duckdb") = Raise e ->
     run_sql duckdb sql = Raise e /\ run_sql duckdb sql <> Ok []) /\
  (forall rows,
     run_sql duckdb sql = Ok rows ->
     exists conn,
       connect duckdb (of_string "cars.duckdb") = Ok conn /\
       execute_fetchall duckdb conn sql = Ok rows).
Proof.
  unfold run_sql. split; [|split; [|split]].
  - intros conn Hc He. rewrite Hc. cbn [bind]. rewrite He.
    split; [reflexivity|]. split; [discriminate|reflexivity].
  - intros conn e Hc He. rewrite Hc. cbn [bind]. rewrite He.
    split; [reflexivity|discriminate].
  - intros e Hc. rewrite Hc. cbn [bind]. split; [reflexivity|discriminate].
  - intros rows H.
    destruct (connect duckdb (of_string "cars.duckdb")) as [conn|e];
      [|discriminate H].
    exists conn. split; [reflexivity|exact H].
Qed.

Lemma C8_empty_result_set_witness :
  (run_sql empty_store (of_string "SELECT city FROM cars WHERE 1 = 0;") = Ok [] /\
   (forall e,
      run_sql empty_store (of_string "SELECT city FROM cars WHERE 1 = 0;")
      <> Raise e) /\
   show_results (@nil (list N))
   = Warning (of_string "No rows returned from database.")) /\
  (run_sql rejecting_store (of_string "SELEKT city;")
   = Raise (DuckDBError (of_string "Parser Error")) /\
   run_sql rejecting_store (of_string "SELEKT city;") <> Ok []) /\
  (run_sql unreachable_store (of_string "SELECT city FROM cars;")
   = Raise (DuckDBError (of_string "IO Error")) /\
   run_sql unreachable_store (of_string "SELECT city FROM cars;") <> Ok []).
Proof.
  split; [|split].
  - apply (proj1 (C8_empty_result_set empty_store _) tt); reflexivity.
  - apply (proj1 (proj2 (C8_empty_result_set rejecting_store _)) tt); reflexivity.
  - apply (proj1 (proj2 (proj2 (C8_empty_result_set unreachable_store _))));
      reflexivity.
Defined.



(** C10: [clean_sql] never lengthens its input. *)
Theorem C10_never_longer x : length (clean_sql x) <= length x.
Proof.
  rewrite clean_sql_steps.
  pose proof (length_strip_fences x).
  pose proof (length_truncate (strip_fences x)).
  pose proof (length_strip (truncate (strip_fences x))).
  pose proof (length_lines (strip (truncate (strip_fences x)))).
  pose proof (length_collapse
    (join [chr_lf] (filter keep_line (splitlines (strip (truncate (strip_fences x))))))).
  pose proof (length_strip (collapse_order_by
    (join [chr_lf] (filter keep_line (splitlines (strip (truncate (strip_fences x)))))))).
  lia.
Qed.

(** * Further properties of the code *)

(** X1: the output of [clean_sql] has no white space at either end. *)
Theorem X1_output_stripped x :
  strip (clean_sql x) = clean_sql x /\
  (forall c rest, clean_sql x = c :: rest -> is_space c = false) /\
  (forall p c, clean_sql x = p ++ [c] -> is_space c = false).
Proof.
  split; [apply strip_clean_sql|]. split.
  - intros c rest E. pose proof (strip_head (clean_sql x)) as H.
    now rewrite strip_clean_sql, E in H.
  - intros p c E. apply (strip_last (clean_sql x) p). now rewrite strip_clean_sql.
Qed.

(** X2: the output of [clean_sql] holds no fenced block: the pattern
    [```.*?```] matches nowhere in it. *)
Theorem X2_output_no_fenced_block x :
  occurs fence_match (clean_sql x) = false.
Proof.
  apply occurs_fence_iff. rewrite <- clean_sql_fences. apply strip_fences_count.
Qed.

(** X3: in the output of [clean_sql] the newline is the only line boundary:
    carriage returns, form feeds and the other boundaries of [splitlines]
    do not occur in it. *)
Theorem X3_output_newlines_only x c :
  is_linebreak c = true -> c <> chr_lf -> count c (clean_sql x) = 0.
Proof.
  intros Hb Hc. apply nl_only_count; [apply clean_sql_nl_only|exact Hb|exact Hc].
Qed.

Lemma X3_output_newlines_only_witness :
  count chr_cr
    (clean_sql (of_string "SELECT a" ++ [chr_cr; chr_lf] ++ of_string "FROM cars;"))
  = 0.
Proof.
  apply X3_output_newlines_only; [reflexivity|discriminate].
Defined.

(** X4: no line of the output of [clean_sql] is one the line filter would
    drop; a second filtering finds nothing to take out. *)
Theorem X4_output_lines_all_kept x :
  Forall (fun l => keep_line l = true) (splitlines (clean_sql x)) /\
  fold_left filter_step (splitlines (clean_sql x)) [] = splitlines (clean_sql x).
Proof.
  pose proof (clean_sql_lines_kept x) as H. split; [exact H|].
  rewrite fold_filter_step. now apply filter_all.
Qed.

(** X5: [clean_sql] leaves a text as it is exactly when each of its steps
    does: the removal of fenced blocks, the truncation at the first [;],
    the trim, the line filter with the joining of the lines, and the
    collapse of [ORDER BY ORDER BY]. *)
Theorem X5_fixed_points s :
  clean_sql s = s <->
  strip_fences s = s /\ truncate s = s /\ strip s = s /\
  join [chr_lf] (fold_left filter_step (splitlines s) []) = s /\
  collapse_order_by s = s.
Proof.
  rewrite fold_filter_step. simpl app. split.
  - intros E. repeat split.
    + rewrite <- E. apply clean_sql_fences.
    + rewrite <- E. apply truncate_clean_sql.
    + rewrite <- E. apply strip_clean_sql.
    + rewrite <- E. apply clean_sql_lines.
    + apply collapse_no_match.
      destruct (clean_sql_pass_again s) as [H|H]; [|rewrite !E in H; lia].
      rewrite clean_sql_twice in H.
      destruct (occurs orderby_match s) eqn:Eo; [|reflexivity].
      rewrite E in H. apply collapse_match_shorter in Eo.
      pose proof (length_strip (collapse_order_by s)) as Hl.
      rewrite H in Hl. lia.
  - intros (H1 & H2 & H3 & H4 & H5).
    rewrite clean_sql_steps, H1, H2, H3, H4, H5. exact H3.
Qed.

Lemma X5_fixed_points_witness :
  clean_sql (of_string "SELECT city FROM cars ORDER BY city;")
  = of_string "SELECT city FROM cars ORDER BY city;".
Proof.
  apply (proj2 (X5_fixed_points (of_string "SELECT city FROM cars ORDER BY city;"))).
  repeat split.
Defined.

(** X6: repeated passes of [clean_sql] come to rest: after the first pass,
    at most [length x] further passes reach a text that the next pass
    leaves as it is. *)
Theorem X6_passes_settle x :
  exists n, n <= length x /\
    clean_sql (Nat.iter n clean_sql (clean_sql x)) = Nat.iter n clean_sql (clean_sql x).
Proof.
  apply clean_sql_settles_within.
  pose proof (length_strip_fences x).
  rewrite clean_sql_steps.
  pose proof (length_truncate (strip_fences x)).
  pose proof (length_strip (truncate (strip_fences x))).
  pose proof (length_lines (strip (truncate (strip_fences x)))).
  pose proof (length_collapse
    (join [chr_lf] (filter keep_line (splitlines (strip (truncate (strip_fences x))))))).
  pose proof (length_strip (collapse_order_by
    (join [chr_lf] (filter keep_line (splitlines (strip (truncate (strip_fences x)))))))).
  lia.
Qed.

(** X7: what follows the first [;] is thrown away: for an input without a
    fenced block, the text after the first [;] has no influence on the
    output. *)
Theorem X7_rest_after_semicolon_dropped a rest :
  occurs fence_match (a ++ chr_semi :: rest) = false ->
  count chr_semi a = 0 ->
  clean_sql (a ++ chr_semi :: rest) = clean_sql (a ++ [chr_semi]).
Proof.
  intros Hf Ha.
  assert (H1 : strip_fences (a ++ chr_semi :: rest) = a ++ chr_semi :: rest)
    by now apply strip_fences_no_match.
  assert (H2 : strip_fences (a ++ [chr_semi]) = a ++ [chr_semi]).
  { apply strip_fences_id. apply occurs_fence_iff in Hf.
    pose proof (fence_count_prefix (a ++ [chr_semi]) rest 0) as Hp.
    rewrite <- app_assoc in Hp. simpl app in Hp. lia. }
  assert (C1 : contains chr_semi (a ++ chr_semi :: rest) = true)
    by (apply contains_true_count; rewrite count_app, count_cons, N.eqb_refl; lia).
  assert (C2 : contains chr_semi (a ++ [chr_semi]) = true)
    by (apply contains_true_count; rewrite count_app, count_cons, N.eqb_refl; lia).
  rewrite !clean_sql_steps, H1, H2. unfold truncate. rewrite C1, C2.
  now rewrite !split_head_no_sep.
Qed.

Lemma X7_rest_after_semicolon_dropped_witness :
  clean_sql (of_string "SELECT a FROM cars" ++ chr_semi :: of_string " DROP TABLE cars;")
  = clean_sql (of_string "SELECT a FROM cars" ++ [chr_semi]).
Proof.
  apply X7_rest_after_semicolon_dropped; reflexivity.
Defined.

(** X8: [clean_sql] adds no character: apart from the newline and the
    letters of the replacement [ORDER BY], every character is in the
    output at most as often as in the input. *)
Theorem X8_no_character_added x c :
  c <> chr_lf -> count c ORDER_BY = 0 ->
  count c (clean_sql x) <= count c x.
Proof.
  intros Hlf Ho. destruct (is_linebreak c) eqn:Hb.
  - rewrite (nl_only_count c (clean_sql x)); [lia|apply clean_sql_nl_only|exact Hb|exact Hlf].
  - rewrite clean_sql_steps.
    pose proof (count_strip_fences c x).
    pose proof (count_truncate c (strip_fences x)).
    pose proof (count_strip_le c (truncate (strip_fences x))).
    pose proof (count_lines c (strip (truncate (strip_fences x))) Hb).
    pose proof (count_collapse c
      (join [chr_lf] (filter keep_line (splitlines (strip (truncate (strip_fences x)))))) Ho).
    pose proof (count_strip_le c (collapse_order_by
      (join [chr_lf] (filter keep_line (splitlines (strip (truncate (strip_fences x)))))))).
    lia.
Qed.

Lemma X8_no_character_added_witness :
  count 39%N (clean_sql (of_string "SELECT a FROM cars WHERE b = 'x';"))
  <= count 39%N (of_string "SELECT a FROM cars WHERE b = 'x';").
Proof.
  apply X8_no_character_added; [discriminate|reflexivity].
Defined.

(** X9: an input of white space alone, the empty input among them, gives
    the empty string. *)
Theorem X9_white_space_gives_empty x :
  all_space x -> clean_sql x = [].
Proof. apply clean_sql_all_space. Qed.

Lemma X9_white_space_gives_empty_witness :
  clean_sql [32; 10; 9; 13; 10; 160]%N = [].
Proof.
  apply X9_white_space_gives_empty. repeat constructor.
Defined.

(** X10: the line filter drops a line only if the line is no SQL line, is
    made of identifier characters, commas and white space alone, and has
    an identifier character; a line with any other character (a bracket, a
    quote, an operator, a dot, a [;]) is kept. *)
Theorem X10_dropped_line_shape line :
  keep_line line = false ->
  is_sql_line line = false /\
  Forall (fun c => bad_char c = true) line /\
  exists c, In c line /\ is_word c = true.
Proof. apply dropped_line_shape. Qed.

Lemma X10_dropped_line_shape_witness :
  is_sql_line (of_string "  city, total ") = false /\
  Forall (fun c => bad_char c = true) (of_string "  city, total ") /\
  exists c, In c (of_string "  city, total ") /\ is_word c = true.
Proof.
  apply X10_dropped_line_shape. reflexivity.
Defined.

(** X11: whatever [make_sql] returns is an output of [clean_sql]: it holds
    at most one [;], with nothing after it, has no white space at its ends
    and no fenced block. *)
Theorem X11_make_sql_returns_cleaned service schema_text question sql :
  make_sql service schema_text question = Ok sql ->
  cleaned sql /\
  count chr_semi sql <= 1 /\
  (forall a b, sql = a ++ chr_semi :: b -> b = []) /\
  strip sql = sql /\
  occurs fence_match sql = false.
Proof.
  intros H. pose proof (make_sql_cleaned _ _ _ _ H) as Hc.
  split; [exact Hc|]. destruct Hc as [raw ->].
  destruct (clean_sql_single_semi raw) as [H1 H2].
  split; [exact H1|]. split; [exact H2|]. split; [apply strip_clean_sql|].
  apply occurs_fence_iff. rewrite <- clean_sql_fences. apply strip_fences_count.
Qed.

Lemma X11_make_sql_returns_cleaned_witness :
  cleaned (clean_sql stray_sql) /\
  count chr_semi (clean_sql stray_sql) <= 1 /\
  (forall a b, clean_sql stray_sql = a ++ chr_semi :: b -> b = []) /\
  strip (clean_sql stray_sql) = clean_sql stray_sql /\
  occurs fence_match (clean_sql stray_sql) = false.
Proof.
  apply (X11_make_sql_returns_cleaned stray_service
           (schema_text_of small_schema) city_question).
  reflexivity.
Defined.

(** X12: when the SQL model answers with its statement inside a fenced
    block, and nothing but white space around the block,
    [build_sql_from_plan] returns the empty string: the statement goes with
    the fences. *)
Theorem X12_fenced_answer_gives_empty_sql service plan w1 b w2 :
  service (sql_request plan) = Ok (w1 ++ fence ++ b ++ fence ++ w2) ->
  all_space w1 -> all_space w2 ->
  find fence (b ++ [chr_backtick; chr_backtick]) = None ->
  build_sql_from_plan service plan = Ok [].
Proof.
  intros Hs H1 H2 Hb. unfold build_sql_from_plan. fold (sql_request plan).
  rewrite Hs. cbn [bind]. f_equal.
  rewrite (clean_sql_by_fences _ (w1 ++ w2)).
  - apply clean_sql_all_space. now apply all_space_app.
  - rewrite (strip_fences_prefix w1 w2), (strip_fences_prefix w1 (fence ++ _))
      by (now apply all_space_no_fence).
    now rewrite strip_fences_block.
Qed.

Lemma X12_fenced_answer_gives_empty_sql_witness :
  build_sql_from_plan (fun _ => Ok scenario2) stray_plan = Ok [].
Proof.
  apply (X12_fenced_answer_gives_empty_sql (fun _ => Ok scenario2) stray_plan []
           (of_string "sql" ++ [chr_lf] ++ of_string "SELECT a FROM cars;" ++ [chr_lf]
            ++ of_string "extra, junk, line" ++ [chr_lf]) []);
    [reflexivity|constructor|constructor|reflexivity].
Defined.

(** X14: in a run with the button pressed, which finds the module
    [pipeline] loaded and [schema_text] set, the only statements the store
    is given to run are outputs of [clean_sql]: two stores that open alike
    and agree on every such statement give the same page, whatever the
    completion service answers.  (The statements of the module body, which
    the first run of a session gives to the store, are not outputs of
    [clean_sql]; they come before any such run.) *)
Theorem X14_store_sees_cleaned_sql_only {Conn Row} service
    (db1 db2 : duckdb_api Conn Row) schema_text str_of_rows question :
  connect db1 (of_string "cars.duckdb") = connect db2 (of_string "cars.duckdb") ->
  (forall conn s, cleaned s ->
     execute_fetchall db1 conn s = execute_fetchall db2 conn s) ->
  app_script service db1 schema_text str_of_rows question true
  = app_script service db2 schema_text str_of_rows question true.
Proof.
  intros Hc He. rewrite !app_script_cases.
  destruct (true && negb (length (strip question) =? 0)); [|reflexivity].
  destruct (make_sql service schema_text question) as [sql|e] eqn:E; [|reflexivity].
  now rewrite (run_sql_on_cleaned db1 db2 sql Hc He (make_sql_cleaned _ _ _ _ E)).
Qed.

Lemma X14_store_sees_cleaned_sql_only_witness :
  app_script stray_service empty_store [] (fun _ => []) city_question true
  = app_script stray_service one_statement_store [] (fun _ => []) city_question true.
Proof.
  apply X14_store_sees_cleaned_sql_only; [reflexivity|].
  intros conn s [raw ->]. simpl.
  destruct (clean_sql_single_semi raw) as [H _].
  apply Nat.leb_le in H. now rewrite H.
Defined.

(** X15: when the statement runs and finds no row, the page shows the
    warning in place of a table, and the insight is asked for all the
    same, with the empty list of rows in its prompt. *)
Theorem X15_no_rows_still_asks_insight {Conn Row} service
    (duckdb : duckdb_api Conn Row) schema_text str_of_rows question sql :
  strip question <> [] ->
  make_sql service schema_text question = Ok sql ->
  run_sql duckdb sql = Ok [] ->
  app_script service duckdb schema_text str_of_rows question true =
  match ask_reasoning_llm service (INSIGHT_PROMPT question (str_of_rows [])) with
  | Raise e =>
      (app_header ++ sql_widgets sql
       ++ [Subheader (of_string "Query Results");
           Results (Warning (of_string "No rows returned from database."))],
       Raise e)
  | Ok insight =>
      (app_header ++ sql_widgets sql
       ++ [Subheader (of_string "Query Results");
           Results (Warning (of_string "No rows returned from database."))]
       ++ insight_widgets insight,
       Ok tt)
  end.
Proof.
  intros Hq Hs Hr. rewrite app_script_cases, Hs, Hr.
  destruct (strip question) as [|c t]; [congruence|]. reflexivity.
Qed.

Lemma X15_no_rows_still_asks_insight_witness :
  app_script stray_service empty_store [] (fun _ => of_string "[]") city_question true =
  match ask_reasoning_llm stray_service
          (INSIGHT_PROMPT city_question (of_string "[]")) with
  | Raise e =>
      (app_header ++ sql_widgets (clean_sql stray_sql)
       ++ [Subheader (of_string "Query Results");
           Results (Warning (of_string "No rows returned from database."))],
       Raise e)
  | Ok insight =>
      (app_header ++ sql_widgets (clean_sql stray_sql)
       ++ [Subheader (of_string "Query Results");
           Results (Warning (of_string "No rows returned from database."))]
       ++ insight_widgets insight,
       Ok tt)
  end.
Proof.
  apply (X15_no_rows_still_asks_insight stray_service empty_store []
           (fun _ => of_string "[]") city_question (clean_sql stray_sql));
    [discriminate|reflexivity|reflexivity].
Defined.

(** X16: when the completion service fails while the SQL is made, the run
    ends there: the page has its five fixed widgets only, and the store is
    not used. *)
Theorem X16_service_failure_ends_run {Conn Row} service
    (duckdb : duckdb_api Conn Row) schema_text str_of_rows question e :
  strip question <> [] ->
  make_sql service schema_text question = Raise e ->
  app_script service duckdb schema_text str_of_rows question true
  = (app_header, Raise e).
Proof.
  intros Hq Hs. rewrite app_script_cases, Hs.
  destruct (strip question) as [|c t]; [congruence|]. reflexivity.
Qed.

Lemma X16_service_failure_ends_run_witness :
  app_script failing_service empty_store [] (fun _ => []) city_question true
  = (app_header, Raise (RequestError (of_string "Connection refused"))).
Proof.
  apply X16_service_failure_ends_run; [discriminate|reflexivity].
Defined.

(** X17: when the store refuses the statement, the run ends there: the
    generated SQL is on the page, no result and no insight follow, and the
    insight is not asked for. *)
Theorem X17_store_failure_ends_run {Conn Row} service
    (duckdb : duckdb_api Conn Row) schema_text str_of_rows question sql e :
  strip question <> [] ->
  make_sql service schema_text question = Ok sql ->
  run_sql duckdb sql = Raise e ->
  app_script service duckdb schema_text str_of_rows question true
  = (app_header ++ sql_widgets sql, Raise e).
Proof.
  intros Hq Hs Hr. rewrite app_script_cases, Hs, Hr.
  destruct (strip question) as [|c t]; [congruence|]. reflexivity.
Qed.

Lemma X17_store_failure_ends_run_witness :
  app_script stray_service rejecting_store [] (fun _ => []) city_question true
  = (app_header ++ sql_widgets (clean_sql stray_sql),
     Raise (DuckDBError (of_string "Parser Error"))).
Proof.
  apply X17_store_failure_ends_run; [discriminate|reflexivity|reflexivity].
Defined.

(** X18: [schema_text] can be read back: when no column name or type holds
    a line boundary and no name a space, the text has one line per column,
    in order, and the first word of each line is the column's name. *)
Theorem X18_schema_text_round_trip rows :
  Forall plain_row rows ->
  map (fun line => hd [] (split 32%N line)) (splitlines (schema_text_of rows))
  = map fst rows.
Proof.
  intros H. rewrite (schema_text_lines rows H), map_map.
  apply map_ext_in. intros [col dtype] Hin. simpl fst. simpl snd.
  rewrite Forall_forall in H. destruct (H _ Hin) as [Hc _]. simpl in Hc.
  apply split_head_word.
  clear -Hc. induction Hc as [|c col [_ Hc] _ IH]; [reflexivity|].
  rewrite count_cons, IH. destruct (N.eqb_spec 32%N c); [congruence|reflexivity].
Qed.

Lemma X18_schema_text_round_trip_witness :
  map (fun line => hd [] (split 32%N line)) (splitlines (schema_text_of small_schema))
  = map fst small_schema.
Proof.
  apply X18_schema_text_round_trip.
  repeat constructor; discriminate.
Defined.

(** X19: a one-line statement comes back as it is: no backtick, no line
    boundary, no white space at the ends, a [;] at the end and nowhere
    else, a keyword at the start, and no doubled [ORDER BY]. *)
Theorem X19_one_line_statement_unchanged p :
  count chr_backtick p = 0 ->
  Forall (fun c => is_linebreak c = false) p ->
  strip (p ++ [chr_semi]) = p ++ [chr_semi] ->
  count chr_semi p = 0 ->
  is_sql_line (p ++ [chr_semi]) = true ->
  occurs orderby_match (p ++ [chr_semi]) = false ->
  clean_sql (p ++ [chr_semi]) = p ++ [chr_semi].
Proof.
  intros Hb Hl Hs Hc Hk Ho. rewrite clean_sql_steps.
  rewrite strip_fences_no_backtick
    by (rewrite count_app, Hb; reflexivity).
  assert (Ht : truncate (p ++ [chr_semi]) = p ++ [chr_semi]).
  { unfold truncate.
    replace (contains chr_semi (p ++ [chr_semi])) with true
      by (symmetry; apply contains_true_count;
          rewrite count_app, count_cons, N.eqb_refl; lia).
    now rewrite split_head_no_sep. }
  rewrite Ht, Hs, splitlines_one_line.
  - simpl filter. unfold keep_line. rewrite Hk. simpl.
    now rewrite (collapse_no_match _ Ho).
  - intros E. apply app_eq_nil in E. destruct E as [_ E]. discriminate.
  - apply Forall_app. split; [exact Hl|]. now constructor.
Qed.

Lemma X19_one_line_statement_unchanged_witness :
  clean_sql (of_string "SELECT city, SUM(pop_vehicle_population) FROM cars GROUP BY city"
             ++ [chr_semi])
  = of_string "SELECT city, SUM(pop_vehicle_population) FROM cars GROUP BY city"
    ++ [chr_semi].
Proof.
  apply X19_one_line_statement_unchanged;
    [reflexivity|repeat constructor|reflexivity|reflexivity|reflexivity|reflexivity].
Defined.
